(** * rt-tester: the periodic real-time worker and its start-up sequence

    A shallow embedding of [rt-tester.cpp].  The worker keeps an absolute
    deadline [next_period] in a [struct timespec], advances it by one period
    per cycle ([inc_period]), measures the wake-up delay against it
    ([do_rt_task]) and sleeps until the advanced deadline
    ([wait_rest_of_period]).  [main] parses the command line and configures
    the real-time thread. *)

From Stdlib Require Import ZArith Zwf Wellfounded List Lia Bool String.
Import ListNotations.

Local Open Scope Z_scope.

(** ** Machine integers

    [long] and [time_t] are the 64-bit two's-complement integers of the LP64
    Linux targets the program is built for.  Sums, differences and products
    that leave the range are taken modulo [2^64], which is what those targets
    compute; a division whose quotient does not exist (divisor zero, or
    [LONG_MIN / -1]) traps and is modelled as [None]. *)

Module Long.

Definition min_signed : Z := - 9223372036854775808.
Definition max_signed : Z := 9223372036854775807.
Definition modulus : Z := 18446744073709551616.

Definition in_range (z : Z) : Prop := min_signed <= z <= max_signed.

Definition wrap (z : Z) : Z := (z - min_signed) mod modulus + min_signed.

Definition add (a b : Z) : Z := wrap (a + b).
Definition sub (a b : Z) : Z := wrap (a - b).
Definition mul (a b : Z) : Z := wrap (a * b).

Definition traps (a b : Z) : bool :=
  (b =? 0) || ((a =? min_signed) && (b =? -1)).

(** C's [/] and [%] truncate towards zero: [Z.quot] and [Z.rem]. *)
Definition div (a b : Z) : option Z :=
  if traps a b then None else Some (Z.quot a b).
Definition rem (a b : Z) : option Z :=
  if traps a b then None else Some (Z.rem a b).

End Long.

(** ** Data *)

(** [struct timespec]: whole seconds and the nanoseconds within the second. *)
Record timespec : Type := mk_timespec { tv_sec : Z; tv_nsec : Z }.

(** Modelled from the spec: the header [rt-tester.h], which declares
    [struct period_info] and [struct task_data], is missing.  The spec's
    PeriodInfo is [{ period_ns, next_period, print_rate }] with integer
    fields; they are given the type [long] of the parameters of
    [periodic_task_init] that initialise them. *)
Record period_info : Type := mk_period_info {
  next_period : timespec;
  period_ns : Z;
  print_rate : Z
}.

(** Modelled from the spec: [struct task_data] of the missing header, the
    spec's TaskConfig [{ period_ns, print_per_sec }], read as [long]. *)
Record task_data : Type := mk_task_data {
  td_period_ns : Z;
  td_print_per_sec : Z
}.

Definition NSEC_PER_SEC : Z := 1000000000.

(** A timestamp read as one number of nanoseconds. *)
Definition total_ns (t : timespec) : Z := tv_sec t * NSEC_PER_SEC + tv_nsec t.

(** ** [diff_nanosec] *)

Definition diff_nanosec (time1 time0 : timespec) : Z :=
  Long.add (Long.mul 1000000000 (Long.sub (tv_sec time1) (tv_sec time0)))
           (Long.sub (tv_nsec time1) (tv_nsec time0)).

(** ** [inc_period] *)

Lemma wrap_sub_second_decreases (n : Z) :
  1000000000 <= n -> Long.wrap (n - 1000000000) < n.
Proof.
  intros Hn. unfold Long.wrap, Long.min_signed, Long.modulus.
  destruct (Z_le_gt_dec n 9223372036854775807) as [Hle | Hgt].
  - rewrite Z.mod_small by lia. lia.
  - pose proof (Z.mod_pos_bound (n - 1000000000 - - 9223372036854775808)
                  18446744073709551616 ltac:(lia)).
    lia.
Qed.

(** The loop runs while [tv_nsec] is at least one second and lowers it each
    time: it terminates by [Zwf 1000000000] on [tv_nsec]. *)
Definition nsec_above_second (t' t : timespec) : Prop :=
  Zwf 1000000000 (tv_nsec t') (tv_nsec t).

Lemma nsec_above_second_wf : well_founded nsec_above_second.
Proof.
  unfold nsec_above_second.
  apply wf_inverse_image. apply Zwf_well_founded.
Qed.

Lemma inc_period_loop_step_decreases (t : timespec) :
  1000000000 <= tv_nsec t ->
  nsec_above_second {| tv_sec := Long.add (tv_sec t) 1;
                       tv_nsec := Long.sub (tv_nsec t) 1000000000 |} t.
Proof.
  intros Hge. unfold nsec_above_second, Zwf, Long.sub. simpl.
  split; [assumption | apply wrap_sub_second_decreases; assumption].
Qed.

(** The [while] loop of [inc_period]: carry whole seconds out of [tv_nsec]. *)
Fixpoint inc_period_loop_acc (t : timespec) (a : Acc nsec_above_second t)
  {struct a} : timespec :=
  match Z_le_gt_dec 1000000000 (tv_nsec t) with
  | left Hge =>
      inc_period_loop_acc
        {| tv_sec := Long.add (tv_sec t) 1;
           tv_nsec := Long.sub (tv_nsec t) 1000000000 |}
        (Acc_inv a (inc_period_loop_step_decreases t Hge))
  | right _ => t
  end.

Definition inc_period_loop (t : timespec) : timespec :=
  inc_period_loop_acc t (Acc_intro_generator 64 nsec_above_second_wf t).

Definition inc_period (pinfo : period_info) : period_info :=
  let t := next_period pinfo in
  {| next_period :=
       inc_period_loop {| tv_sec := tv_sec t;
                          tv_nsec := Long.add (tv_nsec t) (period_ns pinfo) |};
     period_ns := period_ns pinfo;
     print_rate := print_rate pinfo |}.

Definition iter_inc_period (k : nat) (pinfo : period_info) : period_info :=
  Nat.iter k inc_period pinfo.

Arguments inc_period_loop : simpl never.
Arguments inc_period : simpl never.

(** ** The environment: kernel and C library

    Every call into the system appends one event to the trace of the run;
    what the system answers to the call that becomes event number [i] is read
    from the environment at index [i]. *)

Inductive clockid : Type := CLOCK_REALTIME | CLOCK_MONOTONIC.

Definition TIMER_ABSTIME : Z := 1.
Definition MCL_CURRENT : Z := 1.
Definition MCL_FUTURE : Z := 2.
Definition SCHED_FIFO : Z := 1.
Definition PTHREAD_EXPLICIT_SCHED : Z := 1.
Definition EXIT_FAILURE : Z := 1.

Inductive syscall : Type :=
| Gettid
| SchedGetscheduler (tid : Z)
| SchedGetparam (pid : Z)
| SysTime
| ClockNanosleep (clock : clockid) (flags : Z) (request : timespec)
| Mlockall (flags : Z)
| PthreadAttrInit
| PthreadAttrSetstacksize
| PthreadAttrSetschedpolicy (policy : Z)
| PthreadAttrSetschedparam (sched_priority : Z)
| PthreadAttrSetinheritsched (inheritsched : Z)
| PthreadCreate (data : task_data)
| PthreadJoin.

(** What the program writes. *)
Inductive text : Type :=
| Logo (tid policy priority period_ns print_per_sec : Z)
| ExceededLine (rawtime delay_ns task_ns : Z)
| InfoLine (rawtime delay_ns task_ns : Z)
| UsageLine (argv0 : string)
| FailureLine (what : string) (errnum : Z).

Inductive event : Type :=
| Call (c : syscall) (ret : Z)
| ClockGettime (clock : clockid) (now : timespec)
| Getopt (opt : Z) (optarg : string)
| Stdout (t : text)
| Stderr (t : text).

Record env : Type := mk_env {
  env_int : nat -> Z;          (* value returned by an integer-valued call *)
  env_aux : nat -> Z;          (* value stored through an out-parameter, or errno *)
  env_clock : nat -> timespec; (* time stored by clock_gettime *)
  env_argv0 : string;
  env_getopt : list (Z * string);  (* successive results of getopt, before its -1 *)
  env_atol : string -> Z;
  env_atof_1e6 : string -> Z   (* the long that atof(s) * 1000000 converts to *)
}.

(** Computations: read the environment, extend the trace, or trap. *)
Definition M (A : Type) : Type := env -> list event -> option (A * list event).

Definition ret {A} (a : A) : M A := fun _ tr => Some (a, tr).

Definition bind {A B} (m : M A) (k : A -> M B) : M B :=
  fun e tr => match m e tr with
              | Some (a, tr') => k a e tr'
              | None => None
              end.

Notation "x <- m ;; k" := (bind m (fun x => k))
  (at level 61, m at next level, right associativity).
Notation "m ;;; k" := (bind m (fun _ => k))
  (at level 61, right associativity).

Definition lift {A} (o : option A) : M A :=
  fun _ tr => match o with Some a => Some (a, tr) | None => None end.

Definition ask : M env := fun e tr => Some (e, tr).

Definition call (c : syscall) : M Z :=
  fun e tr => let r := env_int e (List.length tr) in Some (r, tr ++ [Call c r]).

(** A call that also fills an out-parameter: both values. *)
Definition call_out (c : syscall) : M (Z * Z) :=
  fun e tr => let r := env_int e (List.length tr) in
              Some ((r, env_aux e (List.length tr)), tr ++ [Call c r]).

Definition errno : M Z := fun e tr => Some (env_aux e (List.length tr), tr).

Definition clock_gettime (clock : clockid) : M timespec :=
  fun e tr => let t := env_clock e (List.length tr) in
              Some (t, tr ++ [ClockGettime clock t]).

Definition printf (t : text) : M unit := fun _ tr => Some (tt, tr ++ [Stdout t]).
Definition fprintf_stderr (t : text) : M unit :=
  fun _ tr => Some (tt, tr ++ [Stderr t]).

(** ** [periodic_task_init] *)

Definition print_rate_of (period_ns print_per_sec : Z) : option Z :=
  if print_per_sec =? 0 then Some 0
  else Long.div 1000000000 (Long.mul period_ns print_per_sec).

Definition periodic_task_init (period_ns print_per_sec : Z) : M period_info :=
  rate <- lift (print_rate_of period_ns print_per_sec) ;;
  now <- clock_gettime CLOCK_MONOTONIC ;;
  ret {| next_period := now; period_ns := period_ns; print_rate := rate |}.

(** ** [wait_rest_of_period]

    The value [clock_nanosleep] returns (zero, or [EINTR] after a signal) is
    dropped. *)
Definition wait_rest_of_period (pinfo : period_info) : M period_info :=
  let pinfo' := inc_period pinfo in
  call (ClockNanosleep CLOCK_MONOTONIC TIMER_ABSTIME (next_period pinfo')) ;;;
  ret pinfo'.

(** ** [do_rt_task]

    [delay_ns] and [task_ns] are [long double]s holding the [long] that
    [diff_nanosec] computes; the 64-bit significand of the target's
    [long double] holds every [long] exactly, so they are modelled by that
    integer, and so is their comparison with [period_ns]. *)

Definition period_exceeded (pinfo : period_info) (start : timespec) : bool :=
  diff_nanosec start (next_period pinfo) >? period_ns pinfo.

Definition print_info (pinfo : period_info) : option bool :=
  if print_rate pinfo =? 0 then Some false
  else
    match Long.div (tv_nsec (next_period pinfo)) (period_ns pinfo) with
    | None => None
    | Some q =>
        match Long.rem q (print_rate pinfo) with
        | None => None
        | Some r => Some (r =? 0)
        end
    end.

Definition do_rt_task (pinfo : period_info) : M unit :=
  start <- clock_gettime CLOCK_MONOTONIC ;;
  let delay_ns := diff_nanosec start (next_period pinfo) in
  rawtime <- call SysTime ;;
  let exceeded := period_exceeded pinfo start in
  info <- lift (print_info pinfo) ;;
  end_ <- clock_gettime CLOCK_MONOTONIC ;;
  let task_ns := diff_nanosec end_ start in
  if exceeded then printf (ExceededLine rawtime delay_ns task_ns)
  else if info then printf (InfoLine rawtime delay_ns task_ns)
  else ret tt.

(** ** [simple_cyclic_task]

    The worker never returns; [cyclic_loop n] is the run of the first [n]
    turns of its [while (1)]. *)

Fixpoint cyclic_loop (n : nat) (pinfo : period_info) : M period_info :=
  match n with
  | O => ret pinfo
  | S n' =>
      do_rt_task pinfo ;;;
      pinfo' <- wait_rest_of_period pinfo ;;
      cyclic_loop n' pinfo'
  end.

Definition simple_cyclic_task (data : task_data) (n : nat) : M period_info :=
  tid <- call Gettid ;;
  policy <- call (SchedGetscheduler tid) ;;
  sp <- call_out (SchedGetparam 0) ;;
  let priority := if fst sp =? 0 then snd sp else 0 in
  let period_ns := td_period_ns data in
  let print_per_sec := td_print_per_sec data in
  printf (Logo tid policy priority period_ns print_per_sec) ;;;
  pinfo <- periodic_task_init period_ns print_per_sec ;;
  cyclic_loop n pinfo.

(** ** [main] *)

Definition opt_p : Z := 112.  (* 'p' *)
Definition opt_r : Z := 114.  (* 'r' *)

(** The option loop.  Its result is the task data when [getopt] reached its
    end, or the status handed to [exit] in the [default] branch. *)
Fixpoint getopt_loop (opts : list (Z * string)) (data : task_data)
  : M (task_data + Z) :=
  match opts with
  | [] => fun e tr => Some (inl data, tr ++ [Getopt (-1) EmptyString])
  | (opt, optarg) :: rest =>
      fun e tr =>
        let tr' := tr ++ [Getopt opt optarg] in
        if opt =? -1 then Some (inl data, tr')
        else if opt =? opt_p then
          getopt_loop rest
            {| td_period_ns := env_atof_1e6 e optarg;
               td_print_per_sec := td_print_per_sec data |} e tr'
        else if opt =? opt_r then
          getopt_loop rest
            {| td_period_ns := td_period_ns data;
               td_print_per_sec := env_atol e optarg |} e tr'
        else
          (fprintf_stderr (UsageLine (env_argv0 e)) ;;; ret (inr EXIT_FAILURE))
            e tr'
  end.

(** [ret = f(...); if (ret) { printf(...); goto out; }] followed by the rest
    of [main]; [out:] returns [ret]. *)
Definition step_or_out (c : syscall) (what : string) (rest : M Z) : M Z :=
  r <- call c ;;
  if r =? 0 then rest
  else printf (FailureLine what r) ;;; ret r.

(** [main] from the memory lock on. *)
Definition start_worker (data : task_data) : M Z :=
  locked <- call (Mlockall (Z.lor MCL_CURRENT MCL_FUTURE)) ;;
  if locked =? -1 then
    en <- errno ;;
    printf (FailureLine "mlockall failed" en) ;;;
    ret (-2)
  else
    step_or_out PthreadAttrInit "init pthread attributes failed"
    (step_or_out PthreadAttrSetstacksize "pthread setstacksize failed"
    (step_or_out (PthreadAttrSetschedpolicy SCHED_FIFO)
           "pthread setschedpolicy failed"
    (step_or_out (PthreadAttrSetschedparam 80) "pthread setschedparam failed"
    (step_or_out (PthreadAttrSetinheritsched PTHREAD_EXPLICIT_SCHED)
           "pthread setinheritsched failed"
    (step_or_out (PthreadCreate data) "create pthread failed"
    (joined <- call PthreadJoin ;;
     (if joined =? 0 then ret tt
      else en <- errno ;;
           printf (FailureLine "join pthread failed" en)) ;;;
     ret joined)))))).

Definition main : M Z :=
  e <- ask ;;
  parsed <- getopt_loop (env_getopt e)
              {| td_period_ns := 1000000; td_print_per_sec := 5 |} ;;
  match parsed with
  | inr status => ret status
  | inl data => start_worker data
  end.

(** The status a parent observes is the low eight bits of the value handed
    to [exit] or returned from [main]. *)
Definition wait_status (code : Z) : Z := code mod 256.

(** ** Observations on traces *)

(** The lines written to standard output, in order. *)
Definition stdout_of (ev : event) : list text :=
  match ev with Stdout t => [t] | _ => [] end.

Definition output (tr : list event) : list text := flat_map stdout_of tr.

(** The [clock_nanosleep] calls, in order, each with what it returned. *)
Definition sleep_of (ev : event) : list (clockid * Z * timespec * Z) :=
  match ev with
  | Call (ClockNanosleep clock flags request) r => [(clock, flags, request, r)]
  | _ => []
  end.

Definition sleeps (tr : list event) : list (clockid * Z * timespec * Z) :=
  flat_map sleep_of tr.

(** All calls into the system, in order, each with what it returned. *)
Definition call_of (ev : event) : list (syscall * Z) :=
  match ev with Call c r => [(c, r)] | _ => [] end.

Definition calls (tr : list event) : list (syscall * Z) := flat_map call_of tr.

(** The events of one [do_rt_task] before it prints. *)
Definition measured (e : env) (tr : list event) : list event :=
  tr ++ [ClockGettime CLOCK_MONOTONIC (env_clock e (List.length tr))]
     ++ [Call SysTime (env_int e (S (List.length tr)))]
     ++ [ClockGettime CLOCK_MONOTONIC (env_clock e (S (S (List.length tr))))].

(** The line a cycle writes, if any. *)
Definition cycle_lines (pinfo : period_info) (info : bool) (e : env)
  (tr : list event) : list text :=
  let start := env_clock e (List.length tr) in
  let rawtime := env_int e (S (List.length tr)) in
  let end_ := env_clock e (S (S (List.length tr))) in
  let delay_ns := diff_nanosec start (next_period pinfo) in
  let task_ns := diff_nanosec end_ start in
  if period_exceeded pinfo start then [ExceededLine rawtime delay_ns task_ns]
  else if info then [InfoLine rawtime delay_ns task_ns]
  else [].

(** Whether the worker's throttle test holds in cycle [i], counting from a
    given initial deadline; and how many of the [len] cycles from cycle [j]
    on pass it. *)
Definition reports (pinfo : period_info) (i : nat) : bool :=
  match print_info (iter_inc_period i pinfo) with
  | Some true => true
  | _ => false
  end.

Definition reports_between (pinfo : period_info) (j len : nat) : nat :=
  List.length (filter (reports pinfo) (seq j len)).

Definition getopt_event (o : Z * string) : event := Getopt (fst o) (snd o).

(** An option [main]'s [switch] has a case for. *)
Definition recognised (o : Z * string) : Prop :=
  fst o = opt_p \/ fst o = opt_r.

(** The set-up calls in the order of [main], and the join after them. *)
Definition startup_sequence (data : task_data) : list syscall :=
  [ Mlockall 3;
    PthreadAttrInit;
    PthreadAttrSetstacksize;
    PthreadAttrSetschedpolicy SCHED_FIFO;
    PthreadAttrSetschedparam 80;
    PthreadAttrSetinheritsched PTHREAD_EXPLICIT_SCHED;
    PthreadCreate data ].

(** When a call counts as failed: [mlockall] by returning -1, the pthread
    calls by returning a non-zero error number. *)
Definition step_failed (c : syscall) (r : Z) : bool :=
  match c with
  | Mlockall _ => r =? -1
  | _ => negb (r =? 0)
  end.

(** The exit code belonging to a failed call. *)
Definition failure_code (c : syscall) (r : Z) : Z :=
  match c with
  | Mlockall _ => -2
  | _ => r
  end.

(** What a run of the start-up may leave: [new] are the calls it made, with
    their results, out of the calls [todo] still to be made, and [code] is
    the exit code.  The calls made are an initial part of [todo]; a call
    before the last one made has succeeded; a failed call is the last one
    made and fixes a non-zero exit code; with no failed call all of [todo]
    has been made and the code is zero. *)
Definition startup_outcome
  (todo : list syscall) (code : Z) (new : list (syscall * Z)) : Prop :=
  (exists later, todo = map fst new ++ later)
  /\ (forall i c r,
        nth_error new i = Some (c, r) ->
        (S i < List.length new)%nat ->
        step_failed c r = false)
  /\ (forall i c r,
        nth_error new i = Some (c, r) ->
        step_failed c r = true ->
        S i = List.length new /\ code = failure_code c r /\ code <> 0)
  /\ ((forall c r, In (c, r) new -> step_failed c r = false) ->
      map fst new = todo /\ code = 0).

(** A computation that always returns and whose calls and exit code are
    such an outcome. *)
Definition runs_startup (todo : list syscall) (m : M Z) : Prop :=
  forall (e : env) (tr : list event),
    exists code tr' new,
      m e tr = Some (code, tr')
      /\ calls tr' = calls tr ++ new
      /\ startup_outcome todo code new.

(** The lines written to standard error, in order. *)
Definition stderr_of (ev : event) : list text :=
  match ev with Stderr t => [t] | _ => [] end.

Definition errors (tr : list event) : list text := flat_map stderr_of tr.

(** A report line agrees with the period when an exceeded-deadline line
    carries a delay above it and a routine line a delay of at most it. *)
Definition line_consistent (period : Z) (t : text) : Prop :=
  match t with
  | ExceededLine _ delay_ns _ => delay_ns > period
  | InfoLine _ delay_ns _ => delay_ns <= period
  | _ => False
  end.

(** What one turn of the option loop does to the task data. *)
Definition apply_option (e : env) (data : task_data) (o : Z * string)
  : task_data :=
  if fst o =? opt_p then
    {| td_period_ns := env_atof_1e6 e (snd o);
       td_print_per_sec := td_print_per_sec data |}
  else if fst o =? opt_r then
    {| td_period_ns := td_period_ns data;
       td_print_per_sec := env_atol e (snd o) |}
  else data.

(** A computation that writes nothing to standard error, and on standard
    output nothing when it returns zero and one failure line when it returns
    another code. *)
Definition reports_on_stdout (m : M Z) : Prop :=
  forall (e : env) (tr : list event) (code : Z) (tr' : list event),
    m e tr = Some (code, tr') ->
    errors tr' = errors tr
    /\ ((code = 0 /\ output tr' = output tr)
        \/ (code <> 0
            /\ exists what errnum,
                 output tr' = output tr ++ [FailureLine what errnum])).

(** ** Sample inputs *)

(** An environment in which every call succeeds and the monotonic clock
    reads 100 s plus one millisecond per event. *)
Definition calm_env : env :=
  {| env_int := fun _ => 0;
     env_aux := fun _ => 0;
     env_clock := fun i => {| tv_sec := 100;
                              tv_nsec := Z.of_nat i * 1000000 |};
     env_argv0 := "rt-tester";
     env_getopt := [];
     env_atol := fun _ => 0;
     env_atof_1e6 := fun _ => 0 |}.

(** The default task: 1 ms period, 5 reports per second, hence one report
    every 200 periods. *)
Definition default_pinfo : period_info :=
  {| next_period := {| tv_sec := 100; tv_nsec := 999500000 |};
     period_ns := 1000000;
     print_rate := 200 |}.

(** A period of more than five seconds. *)
Definition slow_pinfo : period_info :=
  {| next_period := {| tv_sec := 7; tv_nsec := 999999999 |};
     period_ns := 5000000001;
     print_rate := 0 |}.

(** A period so long that adding it to [tv_nsec] leaves the range of
    [long]: [2^63 - 1024] ns. *)
Definition huge_pinfo : period_info :=
  {| next_period := {| tv_sec := 10; tv_nsec := 500000 |};
     period_ns := 9223372036854774784;
     print_rate := 0 |}.

(** A period of 300 ms with one report per second requested:
    [print_rate = 1e9 / (300_000_000 * 1) = 3]. *)
Definition third_pinfo : period_info :=
  {| next_period := {| tv_sec := 100; tv_nsec := 0 |};
     period_ns := 300000000;
     print_rate := 3 |}.

(** A command line with a valid [-p], then an unknown flag (for which
    [getopt] returns ['?'], 63), then a valid [-r]. *)
Definition bad_flag_env : env :=
  {| env_int := fun _ => 0;
     env_aux := fun _ => 0;
     env_clock := fun _ => {| tv_sec := 100; tv_nsec := 0 |};
     env_argv0 := "rt-tester";
     env_getopt := [(opt_p, "2"%string); (63, EmptyString); (opt_r, "10"%string)];
     env_atol := fun _ => 10;
     env_atof_1e6 := fun _ => 2000000 |}.

(** An environment in which the third set-up call, the stack size, fails
    with [EINVAL] (22) and everything else succeeds. *)
Definition stack_fails_env : env :=
  {| env_int := fun i => if Nat.eqb i 3 then 22 else 0;
     env_aux := fun _ => 0;
     env_clock := fun _ => {| tv_sec := 100; tv_nsec := 0 |};
     env_argv0 := "rt-tester";
     env_getopt := [];
     env_atol := fun _ => 0;
     env_atof_1e6 := fun _ => 0 |}.

(** A deadline 100 ns into its second with a period of -500 ns. *)
Definition backward_pinfo : period_info :=
  {| next_period := {| tv_sec := 50; tv_nsec := 100 |};
     period_ns := -500;
     print_rate := 0 |}.

(** A deadline whose nanoseconds hold three and a half seconds. *)
Definition unnormalised_pinfo : period_info :=
  {| next_period := {| tv_sec := 50; tv_nsec := 3500000000 |};
     period_ns := 1000000;
     print_rate := 0 |}.

(** A rate is requested for a period of zero. *)
Definition zero_period_pinfo : period_info :=
  {| next_period := {| tv_sec := 50; tv_nsec := 100 |};
     period_ns := 0;
     print_rate := 7 |}.

(** [rt-tester -p 2 -r 10 -p 3 -r 20], with conversions that read the
    digits. *)
Definition repeated_options_env : env :=
  {| env_int := fun _ => 0;
     env_aux := fun _ => 0;
     env_clock := fun _ => {| tv_sec := 100; tv_nsec := 0 |};
     env_argv0 := "rt-tester";
     env_getopt := [(opt_p, "2"%string); (opt_r, "10"%string);
                    (opt_p, "3"%string); (opt_r, "20"%string)];
     env_atol := fun s => if String.eqb s "10" then 10 else 20;
     env_atof_1e6 := fun s => if String.eqb s "2" then 2000000 else 3000000 |}.

(** * Properties *)

(** ** Machine arithmetic *)

Lemma wrap_in_range (z : Z) : Long.in_range z -> Long.wrap z = z.
Proof.
  unfold Long.in_range, Long.wrap, Long.min_signed, Long.max_signed,
    Long.modulus.
  intros H. rewrite Z.mod_small by lia. lia.
Qed.

Lemma wrap_range (z : Z) : Long.in_range (Long.wrap z).
Proof.
  unfold Long.in_range, Long.wrap, Long.min_signed, Long.max_signed,
    Long.modulus.
  pose proof (Z.mod_pos_bound (z - - 9223372036854775808)
                18446744073709551616 ltac:(lia)).
  lia.
Qed.

Lemma div_nonneg (a b : Z) :
  0 <= a -> 0 < b -> Long.div a b = Some (a / b).
Proof.
  intros Ha Hb. unfold Long.div, Long.traps, Long.min_signed.
  replace (b =? 0) with false by (symmetry; apply Z.eqb_neq; lia).
  replace (a =? - 9223372036854775808) with false
    by (symmetry; apply Z.eqb_neq; lia).
  simpl. rewrite Z.quot_div_nonneg by lia. reflexivity.
Qed.

Lemma rem_nonneg (a b : Z) :
  0 <= a -> 0 < b -> Long.rem a b = Some (a mod b).
Proof.
  intros Ha Hb. unfold Long.rem, Long.traps, Long.min_signed.
  replace (b =? 0) with false by (symmetry; apply Z.eqb_neq; lia).
  replace (a =? - 9223372036854775808) with false
    by (symmetry; apply Z.eqb_neq; lia).
  simpl. rewrite Z.rem_mod_nonneg by lia. reflexivity.
Qed.

(** ** The normalisation loop *)

Lemma inc_period_loop_acc_irrel :
  forall (t : timespec) (a1 a2 : Acc nsec_above_second t),
    inc_period_loop_acc t a1 = inc_period_loop_acc t a2.
Proof.
  fix IH 2. intros t [f1] [f2]. simpl.
  destruct (Z_le_gt_dec 1000000000 (tv_nsec t)) as [Hge | Hlt].
  - apply IH.
  - reflexivity.
Qed.

(** One turn of the [while]. *)
Lemma inc_period_loop_eq (t : timespec) :
  inc_period_loop t =
  if 1000000000 <=? tv_nsec t
  then inc_period_loop {| tv_sec := Long.add (tv_sec t) 1;
                          tv_nsec := Long.sub (tv_nsec t) 1000000000 |}
  else t.
Proof.
  unfold inc_period_loop at 1.
  generalize (Acc_intro_generator 64 nsec_above_second_wf t).
  intros [f]. simpl.
  destruct (Z_le_gt_dec 1000000000 (tv_nsec t)) as [Hge | Hlt].
  - replace (1000000000 <=? tv_nsec t) with true
      by (symmetry; apply Z.leb_le; assumption).
    apply inc_period_loop_acc_irrel.
  - replace (1000000000 <=? tv_nsec t) with false
      by (symmetry; apply Z.leb_gt; lia).
    reflexivity.
Qed.

Lemma inc_period_loop_below (t : timespec) :
  tv_nsec t < 1000000000 -> inc_period_loop t = t.
Proof.
  intros H. rewrite inc_period_loop_eq.
  replace (1000000000 <=? tv_nsec t) with false
    by (symmetry; apply Z.leb_gt; assumption).
  reflexivity.
Qed.

(** From here on the loop is used through these two equations. *)
#[global] Opaque inc_period_loop.

(** The nanoseconds the loop leaves, whatever the seconds do. *)
Lemma inc_period_loop_nsec :
  forall (k : nat) (s n : Z),
    0 <= n < (Z.of_nat k + 1) * 1000000000 ->
    n <= Long.max_signed ->
    tv_nsec (inc_period_loop {| tv_sec := s; tv_nsec := n |})
    = n mod 1000000000.
Proof.
  induction k as [| k IH]; intros s n Hn Hmax.
  - rewrite inc_period_loop_below by (simpl; lia).
    simpl. rewrite Z.mod_small by lia. reflexivity.
  - destruct (Z_lt_ge_dec n 1000000000) as [Hlt | Hge].
    + rewrite inc_period_loop_below by (simpl; lia).
      simpl. rewrite Z.mod_small by lia. reflexivity.
    + rewrite inc_period_loop_eq. simpl.
      replace (1000000000 <=? n) with true by (symmetry; apply Z.leb_le; lia).
      unfold Long.sub. rewrite (wrap_in_range (n - 1000000000))
        by (unfold Long.in_range, Long.min_signed, Long.max_signed in *; lia).
      rewrite IH by (unfold Long.max_signed in *; lia).
      replace n with (n - 1000000000 + 1 * 1000000000) at 2 by lia.
      rewrite Z.mod_add by lia. reflexivity.
Qed.

(** The seconds the loop reaches when they stay in range. *)
Lemma inc_period_loop_sec :
  forall (k : nat) (s n : Z),
    0 <= n < (Z.of_nat k + 1) * 1000000000 ->
    n <= Long.max_signed ->
    Long.min_signed <= s ->
    s + n / 1000000000 <= Long.max_signed ->
    tv_sec (inc_period_loop {| tv_sec := s; tv_nsec := n |})
    = s + n / 1000000000.
Proof.
  induction k as [| k IH]; intros s n Hn Hmax Hs Hfit.
  - rewrite inc_period_loop_below by (simpl; lia).
    simpl. rewrite Z.div_small by lia. lia.
  - destruct (Z_lt_ge_dec n 1000000000) as [Hlt | Hge].
    + rewrite inc_period_loop_below by (simpl; lia).
      simpl. rewrite Z.div_small by lia. lia.
    + assert (Hq : n / 1000000000 = (n - 1000000000) / 1000000000 + 1).
      { replace n with (n - 1000000000 + 1 * 1000000000) at 1 by lia.
        rewrite Z.div_add by lia. reflexivity. }
      assert (0 <= (n - 1000000000) / 1000000000)
        by (apply Z.div_pos; lia).
      rewrite inc_period_loop_eq. simpl.
      replace (1000000000 <=? n) with true by (symmetry; apply Z.leb_le; lia).
      unfold Long.sub, Long.add.
      rewrite (wrap_in_range (n - 1000000000))
        by (unfold Long.in_range, Long.min_signed, Long.max_signed in *; lia).
      rewrite (wrap_in_range (s + 1))
        by (unfold Long.in_range, Long.min_signed, Long.max_signed in *; lia).
      rewrite IH; unfold Long.min_signed, Long.max_signed in *; lia.
Qed.

Lemma nsec_bound_nat (n : Z) :
  0 <= n -> 0 <= n < (Z.of_nat (Z.to_nat (n / 1000000000)) + 1) * 1000000000.
Proof.
  intros Hn. rewrite Z2Nat.id by (apply Z.div_pos; lia).
  pose proof (Z.mod_pos_bound n 1000000000 ltac:(lia)).
  pose proof (Z.div_mod n 1000000000 ltac:(lia)). lia.
Qed.

(** What one [inc_period] does to the nanoseconds, when the sum fits. *)
Lemma inc_period_nsec (pinfo : period_info) :
  0 <= tv_nsec (next_period pinfo) + period_ns pinfo <= Long.max_signed ->
  tv_nsec (next_period (inc_period pinfo))
  = (tv_nsec (next_period pinfo) + period_ns pinfo) mod 1000000000.
Proof.
  intros H. unfold inc_period. simpl. unfold Long.add.
  rewrite wrap_in_range
    by (unfold Long.in_range, Long.min_signed, Long.max_signed in *; lia).
  apply (inc_period_loop_nsec
           (Z.to_nat ((tv_nsec (next_period pinfo) + period_ns pinfo)
                      / 1000000000))).
  - apply nsec_bound_nat. lia.
  - lia.
Qed.

Lemma inc_period_sec (pinfo : period_info) :
  0 <= tv_nsec (next_period pinfo) + period_ns pinfo <= Long.max_signed ->
  Long.min_signed <= tv_sec (next_period pinfo) ->
  tv_sec (next_period pinfo)
  + (tv_nsec (next_period pinfo) + period_ns pinfo) / 1000000000
  <= Long.max_signed ->
  tv_sec (next_period (inc_period pinfo))
  = tv_sec (next_period pinfo)
    + (tv_nsec (next_period pinfo) + period_ns pinfo) / 1000000000.
Proof.
  intros H Hs Hfit. unfold inc_period. simpl. unfold Long.add.
  rewrite wrap_in_range
    by (unfold Long.in_range, Long.min_signed, Long.max_signed in *; lia).
  apply (inc_period_loop_sec
           (Z.to_nat ((tv_nsec (next_period pinfo) + period_ns pinfo)
                      / 1000000000))); try assumption.
  - apply nsec_bound_nat. lia.
  - lia.
Qed.

Lemma inc_period_period_ns (pinfo : period_info) :
  period_ns (inc_period pinfo) = period_ns pinfo.
Proof. reflexivity. Qed.

Lemma inc_period_print_rate (pinfo : period_info) :
  print_rate (inc_period pinfo) = print_rate pinfo.
Proof. reflexivity. Qed.

Lemma iter_inc_period_S (k : nat) (pinfo : period_info) :
  iter_inc_period (S k) pinfo = inc_period (iter_inc_period k pinfo).
Proof. reflexivity. Qed.

Lemma iter_inc_period_shift (k : nat) (pinfo : period_info) :
  iter_inc_period (S k) pinfo = iter_inc_period k (inc_period pinfo).
Proof. unfold iter_inc_period. apply Nat.iter_succ_r. Qed.

Lemma iter_inc_period_period_ns (k : nat) (pinfo : period_info) :
  period_ns (iter_inc_period k pinfo) = period_ns pinfo.
Proof.
  induction k as [| k IH]; [reflexivity |].
  rewrite iter_inc_period_S, inc_period_period_ns. exact IH.
Qed.

Lemma iter_inc_period_print_rate (k : nat) (pinfo : period_info) :
  print_rate (iter_inc_period k pinfo) = print_rate pinfo.
Proof.
  induction k as [| k IH]; [reflexivity |].
  rewrite iter_inc_period_S, inc_period_print_rate. exact IH.
Qed.

(** ** The schedule over several periods *)

Lemma total_ns_split (s n : Z) :
  0 <= n < 1000000000 ->
  (s * 1000000000 + n) / 1000000000 = s.
Proof.
  intros Hn. rewrite Z.add_comm, Z.div_add by lia.
  rewrite Z.div_small by lia. lia.
Qed.

(** While nothing overflows, [k] advances keep the deadline normalised and
    move it by [k] periods. *)
Lemma iter_inc_period_invariant :
  forall (k : nat) (pinfo : period_info),
    0 < period_ns pinfo ->
    0 <= tv_nsec (next_period pinfo) < 1000000000 ->
    period_ns pinfo <= Long.max_signed - 999999999 ->
    Long.min_signed <= tv_sec (next_period pinfo) ->
    tv_sec (next_period pinfo)
    + (tv_nsec (next_period pinfo) + Z.of_nat k * period_ns pinfo) / 1000000000
    <= Long.max_signed ->
    0 <= tv_nsec (next_period (iter_inc_period k pinfo)) < 1000000000
    /\ Long.min_signed <= tv_sec (next_period (iter_inc_period k pinfo))
    /\ total_ns (next_period (iter_inc_period k pinfo))
       = total_ns (next_period pinfo) + Z.of_nat k * period_ns pinfo.
Proof.
  induction k as [| k IH]; intros pinfo HP Hn HPmax Hs Hfit.
  - simpl. repeat split; try lia.
  - assert (Hmono :
      (tv_nsec (next_period pinfo) + Z.of_nat k * period_ns pinfo) / 1000000000
      <= (tv_nsec (next_period pinfo) + Z.of_nat (S k) * period_ns pinfo)
         / 1000000000).
    { apply Z.div_le_mono; [lia | nia]. }
    destruct (IH pinfo HP Hn HPmax Hs ltac:(lia)) as (Hn' & Hs' & Htot).
    rewrite iter_inc_period_S.
    set (q := iter_inc_period k pinfo) in *.
    assert (HPq : period_ns q = period_ns pinfo)
      by apply iter_inc_period_period_ns.
    assert (Hsum : 0 <= tv_nsec (next_period q) + period_ns q
                   <= Long.max_signed) by lia.
    assert (Hdiv :
      tv_sec (next_period q)
      + (tv_nsec (next_period q) + period_ns q) / 1000000000
      = tv_sec (next_period pinfo)
        + (tv_nsec (next_period pinfo) + Z.of_nat (S k) * period_ns pinfo)
          / 1000000000).
    { unfold total_ns, NSEC_PER_SEC in Htot.
      rewrite <- (Z.div_add_l (tv_sec (next_period q)) 1000000000) by lia.
      rewrite <- (Z.div_add_l (tv_sec (next_period pinfo)) 1000000000) by lia.
      f_equal. rewrite HPq. lia. }
    pose proof (inc_period_nsec q Hsum) as Hnsec.
    pose proof (inc_period_sec q Hsum Hs' ltac:(lia)) as Hsec.
    pose proof (Z.mod_pos_bound (tv_nsec (next_period q) + period_ns q)
                  1000000000 ltac:(lia)) as Hmod.
    pose proof (Z.div_mod (tv_nsec (next_period q) + period_ns q)
                  1000000000 ltac:(lia)) as Hdm.
    assert (0 <= (tv_nsec (next_period q) + period_ns q) / 1000000000)
      by (apply Z.div_pos; lia).
    repeat split.
    + lia.
    + lia.
    + lia.
    + unfold total_ns, NSEC_PER_SEC in *. rewrite Hsec, Hnsec. lia.
Qed.

(** ** Running the worker *)

Lemma length_snoc {A} (l : list A) (x : A) :
  List.length (l ++ [x]) = S (List.length l).
Proof. rewrite length_app. simpl. lia. Qed.

Lemma wait_rest_of_period_run (pinfo : period_info) (e : env) (tr : list event) :
  wait_rest_of_period pinfo e tr
  = Some (inc_period pinfo,
          tr ++ [Call (ClockNanosleep CLOCK_MONOTONIC TIMER_ABSTIME
                         (next_period (inc_period pinfo)))
                      (env_int e (List.length tr))]).
Proof. reflexivity. Qed.

Lemma do_rt_task_run (pinfo : period_info) (e : env) (tr : list event) :
  do_rt_task pinfo e tr =
  match print_info pinfo with
  | None => None
  | Some info =>
      let start := env_clock e (List.length tr) in
      let rawtime := env_int e (S (List.length tr)) in
      let end_ := env_clock e (S (S (List.length tr))) in
      let delay_ns := diff_nanosec start (next_period pinfo) in
      let task_ns := diff_nanosec end_ start in
      Some (tt,
            if period_exceeded pinfo start
            then measured e tr ++ [Stdout (ExceededLine rawtime delay_ns task_ns)]
            else if info
                 then measured e tr ++ [Stdout (InfoLine rawtime delay_ns task_ns)]
                 else measured e tr)
  end.
Proof.
  unfold do_rt_task, bind, clock_gettime, call, lift, printf, ret, measured.
  rewrite !length_snoc.
  destruct (print_info pinfo) as [info |]; [| reflexivity].
  rewrite !length_snoc. cbv zeta.
  rewrite <- !app_assoc. simpl.
  destruct (period_exceeded pinfo (env_clock e (List.length tr)));
    [| destruct info]; rewrite <- ?app_assoc; reflexivity.
Qed.

Lemma cyclic_loop_S (n : nat) (pinfo : period_info) (e : env) (tr : list event) :
  cyclic_loop (S n) pinfo e tr =
  match do_rt_task pinfo e tr with
  | None => None
  | Some (_, tr1) =>
      cyclic_loop n (inc_period pinfo) e
        (tr1 ++ [Call (ClockNanosleep CLOCK_MONOTONIC TIMER_ABSTIME
                         (next_period (inc_period pinfo)))
                      (env_int e (List.length tr1))])
  end.
Proof.
  simpl. unfold bind at 1.
  destruct (do_rt_task pinfo e tr) as [[u tr1] |]; reflexivity.
Qed.

(** With a positive period and a deadline whose nanoseconds are not
    negative, the throttle test divides safely. *)
Lemma print_info_defined (pinfo : period_info) :
  0 < period_ns pinfo ->
  0 <= tv_nsec (next_period pinfo) ->
  exists info, print_info pinfo = Some info.
Proof.
  intros HP Hn. unfold print_info.
  destruct (print_rate pinfo =? 0) eqn:HR; [eexists; reflexivity |].
  rewrite div_nonneg by lia.
  assert (Hq : 0 <= tv_nsec (next_period pinfo) / period_ns pinfo)
    by (apply Z.div_pos; lia).
  unfold Long.rem, Long.traps. rewrite HR.
  replace (tv_nsec (next_period pinfo) / period_ns pinfo =? Long.min_signed)
    with false by (symmetry; apply Z.eqb_neq; unfold Long.min_signed; lia).
  simpl. eexists; reflexivity.
Qed.

Lemma do_rt_task_returns (pinfo : period_info) (e : env) (tr : list event) :
  0 < period_ns pinfo ->
  0 <= tv_nsec (next_period pinfo) ->
  exists tr', do_rt_task pinfo e tr = Some (tt, tr').
Proof.
  intros HP Hn. rewrite do_rt_task_run.
  destruct (print_info_defined pinfo HP Hn) as [info ->].
  eexists; reflexivity.
Qed.

(** The worker's deadline after [n] turns is the [n]-fold advance of the
    initial one: nothing read from the clocks enters it. *)
Lemma cyclic_loop_state :
  forall (n : nat) (pinfo : period_info) (e : env) (tr : list event),
    0 < period_ns pinfo ->
    (forall i, (i < n)%nat ->
               0 <= tv_nsec (next_period (iter_inc_period i pinfo))) ->
    exists tr', cyclic_loop n pinfo e tr = Some (iter_inc_period n pinfo, tr').
Proof.
  induction n as [| n IH]; intros pinfo e tr HP Hn.
  - eexists; reflexivity.
  - rewrite cyclic_loop_S.
    destruct (do_rt_task_returns pinfo e tr HP (Hn 0%nat ltac:(lia)))
      as [tr1 ->].
    rewrite iter_inc_period_shift.
    apply IH.
    + rewrite inc_period_period_ns. exact HP.
    + intros i Hi. rewrite <- iter_inc_period_shift. apply Hn. lia.
Qed.

(** ** C1: the schedule does not drift *)

(** C1, as stated, fails: with a period of [2^63 - 1024] ns the sum
    [tv_nsec + period_ns] leaves the range of [long], and the deadline after
    one advance is not the initial one plus one period. *)
Lemma drift_free_overflow_counterexample :
  ~ (forall (k : nat) (pinfo : period_info),
       0 < period_ns pinfo ->
       0 <= tv_nsec (next_period pinfo) < 1000000000 ->
       total_ns (next_period (iter_inc_period k pinfo))
       = total_ns (next_period pinfo) + Z.of_nat k * period_ns pinfo).
Proof.
  intros H.
  specialize (H 1%nat huge_pinfo ltac:(reflexivity)
                ltac:(split; [discriminate | reflexivity])).
  vm_compute in H. discriminate H.
Qed.

(** The carry into the seconds wraps in the same way from the last second a
    [time_t] holds. *)
Example drift_seconds_wrap :
  next_period
    (inc_period {| next_period := {| tv_sec := Long.max_signed;
                                     tv_nsec := 999999999 |};
                   period_ns := 1;
                   print_rate := 0 |})
  = {| tv_sec := Long.min_signed; tv_nsec := 0 |}.
Proof. vm_compute. reflexivity. Qed.

(** C1 (amended): for a period [0 < period_ns <= LONG_MAX - 999_999_999] (so
    that adding it to a normalised [tv_nsec] stays a [long]) and an initial
    deadline with nanoseconds in [[0, 1e9)] whose seconds stay in range over
    the [k] periods, the deadline after [k] advances, read as nanoseconds, is
    the initial one plus exactly [k * period_ns]; and the worker's deadline
    after [k] turns of its loop is that [k]-fold advance whatever the clocks
    read in between. *)
Theorem schedule_drift_free
  (k : nat) (pinfo : period_info) (e : env) (tr : list event) :
  0 < period_ns pinfo ->
  0 <= tv_nsec (next_period pinfo) < 1000000000 ->
  period_ns pinfo <= Long.max_signed - 999999999 ->
  Long.min_signed <= tv_sec (next_period pinfo) ->
  tv_sec (next_period pinfo)
  + (tv_nsec (next_period pinfo) + Z.of_nat k * period_ns pinfo) / 1000000000
  <= Long.max_signed ->
  total_ns (next_period (iter_inc_period k pinfo))
  = total_ns (next_period pinfo) + Z.of_nat k * period_ns pinfo
  /\ exists tr',
       cyclic_loop k pinfo e tr = Some (iter_inc_period k pinfo, tr').
Proof.
  intros HP Hn HPmax Hs Hfit. split.
  - apply iter_inc_period_invariant; assumption.
  - apply cyclic_loop_state; [assumption |].
    intros i Hi.
    assert (Hmono :
      (tv_nsec (next_period pinfo) + Z.of_nat i * period_ns pinfo) / 1000000000
      <= (tv_nsec (next_period pinfo) + Z.of_nat k * period_ns pinfo)
         / 1000000000).
    { apply Z.div_le_mono; [lia | nia]. }
    apply (iter_inc_period_invariant i pinfo HP Hn HPmax Hs). lia.
Qed.

(** Ten periods of 1 ms move the deadline by exactly 10 ms. *)
Lemma schedule_drift_free_witness :
  total_ns (next_period (iter_inc_period 10 default_pinfo))
  = total_ns (next_period default_pinfo) + 10 * 1000000
  /\ exists tr',
       cyclic_loop 10 default_pinfo calm_env []
       = Some (iter_inc_period 10 default_pinfo, tr').
Proof.
  apply (schedule_drift_free 10 default_pinfo calm_env []).
  - reflexivity.
  - split; [discriminate | reflexivity].
  - discriminate.
  - discriminate.
  - vm_compute. discriminate.
Defined.

(** ** C2: the nanoseconds stay normalised *)

(** C2: for [period_ns > 0] and nanoseconds in [[0, 1e9)] before the call,
    when the sum [tv_nsec + period_ns] fits a [long], the nanoseconds after
    [inc_period] are again in [[0, 1e9)], however many whole seconds the sum
    holds. *)
Theorem inc_period_normalised (pinfo : period_info) :
  0 < period_ns pinfo ->
  0 <= tv_nsec (next_period pinfo) < 1000000000 ->
  tv_nsec (next_period pinfo) + period_ns pinfo <= Long.max_signed ->
  0 <= tv_nsec (next_period (inc_period pinfo)) < 1000000000.
Proof.
  intros HP Hn Hfit.
  rewrite inc_period_nsec by lia.
  apply Z.mod_pos_bound. lia.
Qed.

(** A sum of six whole seconds is carried out in full. *)
Lemma inc_period_normalised_witness :
  0 <= tv_nsec (next_period (inc_period slow_pinfo)) < 1000000000.
Proof.
  apply (inc_period_normalised slow_pinfo).
  - reflexivity.
  - split; [discriminate | reflexivity].
  - discriminate.
Defined.

(** ** C3: the cadence of the reports *)

(** C3, as stated, fails: with a 300 ms period and [print_rate = 3] the
    quotient [tv_nsec / period_ns] runs 0, 1, 2, 3, 0, 1, 2, 0, ... because
    it restarts at every seconds boundary; cycles 3 and 4 both report, so the
    three cycles from cycle 3 on hold two reports, not one. *)
Lemma report_cadence_counterexample :
  ~ (forall (pinfo : period_info) (j : nat),
       0 < period_ns pinfo ->
       0 < print_rate pinfo ->
       0 <= tv_nsec (next_period pinfo) < 1000000000 ->
       reports_between pinfo j (Z.to_nat (print_rate pinfo)) = 1%nat).
Proof.
  intros H.
  specialize (H third_pinfo 3%nat ltac:(reflexivity) ltac:(reflexivity)
                ltac:(split; [discriminate | reflexivity])).
  vm_compute in H. discriminate H.
Qed.

Example third_pinfo_rate : print_rate_of 300000000 1 = Some 3.
Proof. reflexivity. Qed.

Example third_pinfo_reports :
  map (reports third_pinfo) (seq 0 8)
  = [true; false; false; true; true; false; false; true].
Proof. vm_compute. reflexivity. Qed.

(** The nanoseconds after [i] advances of a period of at most a second. *)
Lemma iter_inc_period_nsec :
  forall (i : nat) (pinfo : period_info),
    0 < period_ns pinfo <= 1000000000 ->
    0 <= tv_nsec (next_period pinfo) < 1000000000 ->
    tv_nsec (next_period (iter_inc_period i pinfo))
    = (tv_nsec (next_period pinfo) + Z.of_nat i * period_ns pinfo)
      mod 1000000000.
Proof.
  induction i as [| i IH]; intros pinfo HP Hn.
  - simpl. rewrite Z.add_0_r, Z.mod_small by lia. reflexivity.
  - rewrite iter_inc_period_S.
    pose proof (Z.mod_pos_bound
                  (tv_nsec (next_period pinfo) + Z.of_nat i * period_ns pinfo)
                  1000000000 ltac:(lia)) as Hb.
    rewrite inc_period_nsec;
      rewrite iter_inc_period_period_ns, IH by assumption;
      [| unfold Long.max_signed; lia].
    rewrite Zplus_mod_idemp_l. f_equal. lia.
Qed.

(** Dividing a residue modulo [p * n] by [p]. *)
Lemma mod_mul_div (a p n : Z) :
  0 < p -> 0 < n -> (a mod (p * n)) / p = (a / p) mod n.
Proof.
  intros Hp Hn. rewrite Z.rem_mul_r by lia.
  rewrite (Z.mul_comm p), Z.div_add by lia.
  rewrite Z.div_small by (apply Z.mod_pos_bound; lia).
  reflexivity.
Qed.

Lemma mod_mul_mod (x r m : Z) :
  0 < r -> 0 < m -> (x mod (r * m)) mod r = x mod r.
Proof.
  intros Hr Hm. rewrite Z.rem_mul_r by lia.
  rewrite (Z.mul_comm r), Z.mod_add by lia.
  apply Z.mod_mod. lia.
Qed.

(** The throttle test in cycle [i] when a second holds a whole number of
    reporting intervals: it counts periods. *)
Lemma reports_counts_periods (pinfo : period_info) (i : nat) :
  0 < period_ns pinfo ->
  0 < print_rate pinfo ->
  0 <= tv_nsec (next_period pinfo) < 1000000000 ->
  (period_ns pinfo * print_rate pinfo | 1000000000) ->
  reports pinfo i
  = ((tv_nsec (next_period pinfo) / period_ns pinfo + Z.of_nat i)
       mod print_rate pinfo =? 0).
Proof.
  intros HP HR Hn [m Hm].
  assert (Hmpos : 0 < m) by nia.
  assert (HPle : period_ns pinfo <= 1000000000) by nia.
  unfold reports, print_info.
  rewrite iter_inc_period_print_rate, iter_inc_period_period_ns.
  rewrite iter_inc_period_nsec by lia.
  replace (print_rate pinfo =? 0) with false
    by (symmetry; apply Z.eqb_neq; lia).
  rewrite div_nonneg;
    [| apply Z.mod_pos_bound; lia | assumption].
  rewrite rem_nonneg;
    [| apply Z.div_pos; [apply Z.mod_pos_bound |]; lia | assumption].
  replace 1000000000
    with (period_ns pinfo * (print_rate pinfo * m)) by lia.
  rewrite mod_mul_div by nia.
  rewrite Z.div_add by lia.
  rewrite mod_mul_mod by lia.
  destruct ((tv_nsec (next_period pinfo) / period_ns pinfo + Z.of_nat i)
              mod print_rate pinfo =? 0); reflexivity.
Qed.

(** *** Counting the multiples of [r] in a window of [r] indices *)

Lemma filter_none {A} (f : A -> bool) (l : list A) :
  (forall x, In x l -> f x = false) -> filter f l = [].
Proof.
  induction l as [| x l IH]; intros H; [reflexivity |].
  simpl. rewrite (H x (or_introl eq_refl)).
  apply IH. intros y Hy. apply H. right. exact Hy.
Qed.

Lemma filter_seq_unique (f : nat -> bool) (j r d : nat) :
  (d < r)%nat ->
  (forall t, (t < r)%nat -> f (j + t)%nat = true <-> t = d) ->
  filter f (seq j r) = [(j + d)%nat].
Proof.
  intros Hd Hf.
  replace r with (d + S (r - d - 1))%nat by lia.
  rewrite seq_app, filter_app. simpl.
  assert (Hhit : f (j + d)%nat = true) by (apply Hf; [lia | reflexivity]).
  rewrite Hhit.
  rewrite !filter_none; [reflexivity | |].
  - intros x Hx. apply in_seq in Hx.
    destruct (f x) eqn:Hfx; [| reflexivity].
    replace x with (j + (x - j))%nat in Hfx by lia.
    apply Hf in Hfx; lia.
  - intros x Hx. apply in_seq in Hx.
    destruct (f x) eqn:Hfx; [| reflexivity].
    replace x with (j + (x - j))%nat in Hfx by lia.
    apply Hf in Hfx; lia.
Qed.

Lemma multiple_offset (c r : Z) (j : nat) :
  0 < r ->
  exists d, (d < Z.to_nat r)%nat /\
    forall t, (t < Z.to_nat r)%nat ->
      ((c + Z.of_nat (j + t)) mod r =? 0) = true <-> t = d.
Proof.
  intros Hr.
  pose proof (Z.mod_pos_bound (c + Z.of_nat j) r Hr) as Ha.
  set (a := (c + Z.of_nat j) mod r) in *.
  exists (Z.to_nat ((r - a) mod r)).
  pose proof (Z.mod_pos_bound (r - a) r Hr) as Hd.
  split; [lia |].
  intros t Ht.
  rewrite Z.eqb_eq.
  replace (c + Z.of_nat (j + t)) with (c + Z.of_nat j + Z.of_nat t) by lia.
  rewrite <- Zplus_mod_idemp_l. fold a.
  destruct (Z_lt_ge_dec (a + Z.of_nat t) r) as [Hlt | Hge].
  - rewrite Z.mod_small by lia.
    destruct (Z.eq_dec a 0) as [Ha0 | Ha0].
    + rewrite Ha0, Z.sub_0_r, Z.mod_same by lia. simpl. lia.
    + rewrite (Z.mod_small (r - a)) by lia. lia.
  - replace (a + Z.of_nat t) with (a + Z.of_nat t - r + 1 * r) by lia.
    rewrite Z.mod_add, Z.mod_small by lia.
    destruct (Z.eq_dec a 0) as [Ha0 | Ha0].
    + lia.
    + rewrite (Z.mod_small (r - a)) by lia. lia.
Qed.

(** C3 (amended): for [period_ns > 0] and [print_rate > 0] such that a
    second is a whole number of reporting intervals
    ([period_ns * print_rate] divides [1_000_000_000]) and initial
    nanoseconds in [[0, 1e9)], over the consecutive cycles produced by
    advancing the deadline one period per cycle the throttle test holds
    exactly once in every [print_rate] consecutive cycles. *)
Theorem report_cadence (pinfo : period_info) (j : nat) :
  0 < period_ns pinfo ->
  0 < print_rate pinfo ->
  0 <= tv_nsec (next_period pinfo) < 1000000000 ->
  (period_ns pinfo * print_rate pinfo | 1000000000) ->
  reports_between pinfo j (Z.to_nat (print_rate pinfo)) = 1%nat.
Proof.
  intros HP HR Hn Hdiv. unfold reports_between.
  destruct (multiple_offset (tv_nsec (next_period pinfo) / period_ns pinfo)
              (print_rate pinfo) j HR) as (d & Hd & Hhit).
  rewrite (filter_seq_unique (reports pinfo) j _ d Hd); [reflexivity |].
  intros t Ht. rewrite reports_counts_periods by assumption.
  apply Hhit. exact Ht.
Qed.

(** The default task reports once in any 200 consecutive cycles. *)
Lemma report_cadence_witness :
  reports_between default_pinfo 123 (Z.to_nat (print_rate default_pinfo))
  = 1%nat.
Proof.
  apply (report_cadence default_pinfo 123).
  - reflexivity.
  - reflexivity.
  - split; [discriminate | reflexivity].
  - exists 5. reflexivity.
Defined.

(** ** C4: the exceeded-deadline test *)

(** The measured delay is the true distance between the two timestamps as
    long as that distance is a [long]. *)
Lemma diff_nanosec_exact (time1 time0 : timespec) :
  Long.in_range (tv_sec time1 - tv_sec time0) ->
  Long.in_range (1000000000 * (tv_sec time1 - tv_sec time0)) ->
  Long.in_range (tv_nsec time1 - tv_nsec time0) ->
  Long.in_range (total_ns time1 - total_ns time0) ->
  diff_nanosec time1 time0 = total_ns time1 - total_ns time0.
Proof.
  intros H1 H2 H3 H4. unfold diff_nanosec, Long.add, Long.mul, Long.sub.
  rewrite (wrap_in_range _ H1), (wrap_in_range _ H2), (wrap_in_range _ H3).
  unfold total_ns, NSEC_PER_SEC in *.
  rewrite wrap_in_range; [lia |].
  replace (1000000000 * (tv_sec time1 - tv_sec time0)
           + (tv_nsec time1 - tv_nsec time0))
    with (tv_sec time1 * 1000000000 + tv_nsec time1
          - (tv_sec time0 * 1000000000 + tv_nsec time0)) by lia.
  exact H4.
Qed.

(** C4: a cycle is exceeded exactly when the measured delay is strictly
    greater than the period; a delay equal to the period, and any smaller
    one, is not exceeded. *)
Theorem exceeded_iff_delay_above_period
  (pinfo : period_info) (start : timespec) :
  let delay_ns := diff_nanosec start (next_period pinfo) in
  (period_exceeded pinfo start = true <-> delay_ns > period_ns pinfo)
  /\ (delay_ns = period_ns pinfo -> period_exceeded pinfo start = false)
  /\ (delay_ns <= period_ns pinfo -> period_exceeded pinfo start = false).
Proof.
  cbv zeta. unfold period_exceeded.
  destruct (Z.gtb_spec (diff_nanosec start (next_period pinfo))
              (period_ns pinfo)) as [Hgt | Hle].
  - repeat split; intros; try reflexivity; lia.
  - repeat split; intros; try reflexivity; try discriminate; lia.
Qed.

(** Waking exactly one period after the deadline is not exceeded. *)
Lemma exceeded_iff_delay_above_period_witness :
  period_exceeded default_pinfo {| tv_sec := 101; tv_nsec := 500000 |}
  = false.
Proof.
  apply (exceeded_iff_delay_above_period default_pinfo
           {| tv_sec := 101; tv_nsec := 500000 |}).
  reflexivity.
Defined.

Example exceeded_one_nanosecond_later :
  period_exceeded default_pinfo {| tv_sec := 101; tv_nsec := 500001 |} = true.
Proof. reflexivity. Qed.

(** ** C5 and C10: the report rate *)

Lemma print_rate_of_exact (period_ns print_per_sec : Z) :
  0 < period_ns ->
  0 <= print_per_sec ->
  period_ns * print_per_sec <= Long.max_signed ->
  print_rate_of period_ns print_per_sec
  = Some (if print_per_sec =? 0 then 0
          else 1000000000 / (period_ns * print_per_sec)).
Proof.
  intros HP Hr Hfit. unfold print_rate_of.
  destruct (Z.eqb_spec print_per_sec 0) as [H0 | H0]; [reflexivity |].
  unfold Long.mul. rewrite wrap_in_range
    by (unfold Long.in_range, Long.min_signed, Long.max_signed in *; nia).
  apply div_nonneg; nia.
Qed.

Lemma periodic_task_init_run
  (period_ns print_per_sec : Z) (e : env) (tr : list event) :
  periodic_task_init period_ns print_per_sec e tr =
  match print_rate_of period_ns print_per_sec with
  | None => None
  | Some rate =>
      Some ({| next_period := env_clock e (List.length tr);
               period_ns := period_ns;
               print_rate := rate |},
            tr ++ [ClockGettime CLOCK_MONOTONIC (env_clock e (List.length tr))])
  end.
Proof.
  unfold periodic_task_init, bind, lift, clock_gettime, ret.
  destruct (print_rate_of period_ns print_per_sec); reflexivity.
Qed.

(** A rate of zero switches the throttle test off, in every cycle. *)
Lemma print_rate_zero_silent (pinfo : period_info) (k : nat) :
  print_rate pinfo = 0 ->
  print_info (iter_inc_period k pinfo) = Some false.
Proof.
  intros H0. unfold print_info.
  rewrite iter_inc_period_print_rate, H0. reflexivity.
Qed.

(** C5, as stated, fails: with the default period of 1 ms and
    [print_per_sec = 2^58] the product [period_ns * print_per_sec] is
    [15625 * 2^64], which a [long] holds as zero; the division traps and no
    [print_rate] is computed. *)
Lemma print_rate_overflow_counterexample :
  ~ (forall period_ns print_per_sec : Z,
       0 < period_ns ->
       0 <= print_per_sec ->
       print_rate_of period_ns print_per_sec
       = Some (if print_per_sec =? 0 then 0
               else 1000000000 / (period_ns * print_per_sec))).
Proof.
  intros H.
  specialize (H 1000000 288230376151711744 ltac:(reflexivity)
                ltac:(discriminate)).
  vm_compute in H. discriminate H.
Qed.

(** C5 (amended): for [period_ns > 0] and [print_per_sec >= 0] whose
    product fits a [long], the initialisation computes [print_rate = 0] when
    [print_per_sec = 0] and [1_000_000_000 / (period_ns * print_per_sec)]
    (integer division) otherwise; and with a [print_rate] of zero the
    throttle test is false in every cycle. *)
Theorem print_rate_derivation
  (period_ns print_per_sec : Z) (e : env) (tr : list event) :
  0 < period_ns ->
  0 <= print_per_sec ->
  period_ns * print_per_sec <= Long.max_signed ->
  exists pinfo tr',
    periodic_task_init period_ns print_per_sec e tr = Some (pinfo, tr')
    /\ print_rate pinfo
       = (if print_per_sec =? 0 then 0
          else 1000000000 / (period_ns * print_per_sec))
    /\ (print_rate pinfo = 0 ->
        forall k, print_info (iter_inc_period k pinfo) = Some false).
Proof.
  intros HP Hr Hfit.
  rewrite periodic_task_init_run, print_rate_of_exact by assumption.
  eexists; eexists. split; [reflexivity |]. split; [reflexivity |].
  intros H0 k. apply print_rate_zero_silent. exact H0.
Qed.

(** The defaults, 1 ms and 5 reports per second, give [print_rate = 200]. *)
Lemma print_rate_derivation_witness :
  exists pinfo tr',
    periodic_task_init 1000000 5 calm_env [] = Some (pinfo, tr')
    /\ print_rate pinfo = 200
    /\ (print_rate pinfo = 0 ->
        forall k, print_info (iter_inc_period k pinfo) = Some false).
Proof.
  apply (print_rate_derivation 1000000 5 calm_env []).
  - reflexivity.
  - discriminate.
  - discriminate.
Defined.

(** C10, as stated, fails: with the default period of 1 ms and
    [print_per_sec = 76480200929599801] the product exceeds [1e9] by far,
    but a [long] holds it as 64, and [print_rate] is [15_625_000], not 0. *)
Lemma silent_truncation_counterexample :
  ~ (forall period_ns print_per_sec : Z,
       0 < period_ns ->
       0 < print_per_sec ->
       period_ns * print_per_sec > 1000000000 ->
       print_rate_of period_ns print_per_sec = Some 0).
Proof.
  intros H.
  specialize (H 1000000 76480200929599801 ltac:(reflexivity)
                ltac:(reflexivity) ltac:(reflexivity)).
  vm_compute in H. discriminate H.
Qed.

Example wrapped_rate :
  print_rate_of 1000000 76480200929599801 = Some 15625000.
Proof. vm_compute. reflexivity. Qed.

(** C10 (amended): for [period_ns > 0] and [print_per_sec > 0] with
    [1_000_000_000 < period_ns * print_per_sec <= LONG_MAX], the
    initialisation yields [print_rate = 0], and the throttle test is then
    false in every cycle although a positive rate was requested. *)
Theorem silent_truncation
  (period_ns print_per_sec : Z) (e : env) (tr : list event) :
  0 < period_ns ->
  0 < print_per_sec ->
  1000000000 < period_ns * print_per_sec <= Long.max_signed ->
  exists pinfo tr',
    periodic_task_init period_ns print_per_sec e tr = Some (pinfo, tr')
    /\ print_rate pinfo = 0
    /\ forall k, print_info (iter_inc_period k pinfo) = Some false.
Proof.
  intros HP Hr [Hbig Hfit].
  rewrite periodic_task_init_run, print_rate_of_exact by lia.
  replace (print_per_sec =? 0) with false by (symmetry; apply Z.eqb_neq; lia).
  rewrite Z.div_small by lia.
  eexists; eexists. split; [reflexivity |]. split; [reflexivity |].
  intros k. apply print_rate_zero_silent. reflexivity.
Qed.

(** The default period with 1001 reports per second requested. *)
Lemma silent_truncation_witness :
  exists pinfo tr',
    periodic_task_init 1000000 1001 calm_env [] = Some (pinfo, tr')
    /\ print_rate pinfo = 0
    /\ forall k, print_info (iter_inc_period k pinfo) = Some false.
Proof.
  apply (silent_truncation 1000000 1001 calm_env []).
  - reflexivity.
  - reflexivity.
  - split; [reflexivity | discriminate].
Defined.

(** ** What one cycle and a run of cycles leave in the trace *)

Lemma output_app (tr1 tr2 : list event) :
  output (tr1 ++ tr2) = output tr1 ++ output tr2.
Proof. apply flat_map_app. Qed.

Lemma sleeps_app (tr1 tr2 : list event) :
  sleeps (tr1 ++ tr2) = sleeps tr1 ++ sleeps tr2.
Proof. apply flat_map_app. Qed.

Lemma output_measured (e : env) (tr : list event) :
  output (measured e tr) = output tr.
Proof.
  unfold measured. rewrite output_app. simpl. apply app_nil_r.
Qed.

Lemma sleeps_measured (e : env) (tr : list event) :
  sleeps (measured e tr) = sleeps tr.
Proof.
  unfold measured. rewrite sleeps_app. simpl. apply app_nil_r.
Qed.

Lemma do_rt_task_inv
  (pinfo : period_info) (e : env) (tr : list event) (u : unit)
  (tr1 : list event) :
  do_rt_task pinfo e tr = Some (u, tr1) ->
  exists info,
    print_info pinfo = Some info
    /\ output tr1 = output tr ++ cycle_lines pinfo info e tr
    /\ sleeps tr1 = sleeps tr.
Proof.
  rewrite do_rt_task_run.
  destruct (print_info pinfo) as [info |]; [| discriminate].
  cbv zeta. intros H. injection H as _ <-.
  exists info. split; [reflexivity |].
  unfold cycle_lines.
  destruct (period_exceeded pinfo (env_clock e (List.length tr)));
    [| destruct info];
    rewrite ?output_app, ?sleeps_app, ?output_measured, ?sleeps_measured;
    simpl; rewrite ?app_nil_r; split; reflexivity.
Qed.

(** ** C9: one absolute wait per cycle *)

Lemma seq_0_S_map {A} (f : nat -> A) (n : nat) :
  map f (seq 0 (S n)) = f 0%nat :: map (fun i => f (S i)) (seq 0 n).
Proof.
  simpl. rewrite <- seq_shift, map_map. reflexivity.
Qed.

Lemma cyclic_loop_sleeps :
  forall (n : nat) (pinfo : period_info) (e : env) (tr : list event)
         (p' : period_info) (tr' : list event),
    cyclic_loop n pinfo e tr = Some (p', tr') ->
    p' = iter_inc_period n pinfo
    /\ map fst (sleeps tr')
       = map fst (sleeps tr)
         ++ map (fun i => (CLOCK_MONOTONIC, TIMER_ABSTIME,
                           next_period (iter_inc_period (S i) pinfo)))
                (seq 0 n).
Proof.
  induction n as [| n IH]; intros pinfo e tr p' tr' Hrun.
  - simpl in Hrun. injection Hrun as <- <-.
    simpl. rewrite app_nil_r. split; reflexivity.
  - rewrite cyclic_loop_S in Hrun.
    destruct (do_rt_task pinfo e tr) as [[u tr1] |] eqn:Htask;
      [| discriminate].
    destruct (do_rt_task_inv _ _ _ _ _ Htask) as (info & _ & _ & Hsl).
    apply IH in Hrun. destruct Hrun as [-> Hrun].
    split; [symmetry; apply iter_inc_period_shift |].
    rewrite Hrun, sleeps_app, Hsl, map_app, <- app_assoc.
    apply f_equal. rewrite seq_0_S_map.
    change (map fst (sleeps
              [Call (ClockNanosleep CLOCK_MONOTONIC TIMER_ABSTIME
                       (next_period (inc_period pinfo)))
                    (env_int e (List.length tr1))]))
      with [(CLOCK_MONOTONIC, TIMER_ABSTIME, next_period (inc_period pinfo))].
    change (iter_inc_period 1 pinfo) with (inc_period pinfo).
    cbn [app]. apply f_equal.
    apply map_ext. intros i. rewrite <- iter_inc_period_shift. reflexivity.
Qed.

(** C9: [wait_rest_of_period] advances the deadline and issues one
    [clock_nanosleep] on the monotonic clock with [TIMER_ABSTIME] and the
    advanced deadline as its request; what the call returns does not enter
    the result.  Over [n] cycles the worker issues exactly [n] such calls,
    one per cycle, for the successive deadlines, whatever the earlier waits
    returned: an early wake is not followed by a second wait. *)
Theorem absolute_deadline_wait :
  (forall (pinfo : period_info) (e : env) (tr : list event),
     wait_rest_of_period pinfo e tr
     = Some (inc_period pinfo,
             tr ++ [Call (ClockNanosleep CLOCK_MONOTONIC TIMER_ABSTIME
                            (next_period (inc_period pinfo)))
                         (env_int e (List.length tr))]))
  /\ (forall (n : nat) (pinfo : period_info) (e : env) (tr : list event)
             (p' : period_info) (tr' : list event),
        cyclic_loop n pinfo e tr = Some (p', tr') ->
        p' = iter_inc_period n pinfo
        /\ map fst (sleeps tr')
           = map fst (sleeps tr)
             ++ map (fun i => (CLOCK_MONOTONIC, TIMER_ABSTIME,
                               next_period (iter_inc_period (S i) pinfo)))
                    (seq 0 n)).
Proof.
  split.
  - intros. apply wait_rest_of_period_run.
  - apply cyclic_loop_sleeps.
Qed.

(** Two cycles of the default task: two waits, for the first and the second
    advanced deadline. *)
Lemma absolute_deadline_wait_witness :
  exists p' tr',
    cyclic_loop 2 default_pinfo calm_env [] = Some (p', tr')
    /\ p' = iter_inc_period 2 default_pinfo
    /\ map fst (sleeps tr')
       = map fst (sleeps [])
         ++ map (fun i => (CLOCK_MONOTONIC, TIMER_ABSTIME,
                           next_period (iter_inc_period (S i) default_pinfo)))
                (seq 0 2).
Proof.
  eexists; eexists. split; [vm_compute; reflexivity |].
  apply (proj2 absolute_deadline_wait 2%nat default_pinfo calm_env []).
  vm_compute. reflexivity.
Defined.

(** ** C6: when a report line is written *)

Lemma cycle_lines_quiet
  (pinfo : period_info) (e : env) (tr : list event) (line : text) :
  In line (cycle_lines pinfo false e tr) ->
  exists r d t, line = ExceededLine r d t.
Proof.
  unfold cycle_lines.
  destruct (period_exceeded pinfo (env_clock e (List.length tr)));
    simpl; intros H; [| contradiction].
  destruct H as [<- | []]. eexists; eexists; eexists; reflexivity.
Qed.

(** With [print_rate = 0] the loop runs on without trapping and adds only
    exceeded-deadline lines to the output. *)
Lemma cyclic_loop_quiet :
  forall (n : nat) (pinfo : period_info) (e : env) (tr : list event),
    print_rate pinfo = 0 ->
    exists p' tr',
      cyclic_loop n pinfo e tr = Some (p', tr')
      /\ forall line, In line (output tr') ->
           In line (output tr) \/ exists r d t, line = ExceededLine r d t.
Proof.
  induction n as [| n IH]; intros pinfo e tr H0.
  - exists pinfo, tr. split; [reflexivity | intros line H; left; exact H].
  - rewrite cyclic_loop_S.
    pose proof (print_rate_zero_silent pinfo 0 H0) as Hinfo.
    change (iter_inc_period 0 pinfo) with pinfo in Hinfo.
    destruct (do_rt_task pinfo e tr) as [[u tr1] |] eqn:Htask.
    + destruct (do_rt_task_inv _ _ _ _ _ Htask) as (info & Hi & Hout & _).
      rewrite Hinfo in Hi. injection Hi as <-.
      destruct (IH (inc_period pinfo) e
                  (tr1 ++ [Call (ClockNanosleep CLOCK_MONOTONIC TIMER_ABSTIME
                                   (next_period (inc_period pinfo)))
                                (env_int e (List.length tr1))])
                  ltac:(rewrite inc_period_print_rate; exact H0))
        as (p' & tr' & Hrun & Hlines).
      exists p', tr'. split; [exact Hrun |].
      intros line Hin. destruct (Hlines line Hin) as [Hold | Hex];
        [| right; exact Hex].
      rewrite output_app, Hout in Hold.
      change (output [Call (ClockNanosleep CLOCK_MONOTONIC TIMER_ABSTIME
                              (next_period (inc_period pinfo)))
                           (env_int e (List.length tr1))])
        with (@nil text) in Hold.
      rewrite app_nil_r in Hold. apply in_app_or in Hold.
      destruct Hold as [Hold | Hnew]; [left; exact Hold | right].
      apply (cycle_lines_quiet pinfo e tr). exact Hnew.
    + rewrite do_rt_task_run, Hinfo in Htask. discriminate Htask.
Qed.

Lemma simple_cyclic_task_quiet (data : task_data) (n : nat) (e : env) :
  td_print_per_sec data = 0 ->
  exists p' tr',
    simple_cyclic_task data n e [] = Some (p', tr')
    /\ forall r d t, ~ In (InfoLine r d t) (output tr').
Proof.
  intros H0. unfold simple_cyclic_task.
  unfold bind at 1. unfold call at 1. cbv iota beta zeta.
  unfold bind at 1. unfold call at 1. cbv iota beta zeta.
  unfold bind at 1. unfold call_out at 1. cbv iota beta zeta.
  unfold bind at 1. unfold printf at 1. cbv iota beta zeta.
  unfold bind at 1. rewrite periodic_task_init_run.
  rewrite H0. change (print_rate_of (td_period_ns data) 0) with (Some 0).
  cbv iota beta.
  match goal with
  | |- exists p' tr', cyclic_loop n ?p e ?tr = _ /\ _ =>
      destruct (cyclic_loop_quiet n p e tr eq_refl)
        as (p' & tr' & Hrun & Hlines);
      exists p', tr'; split; [exact Hrun |];
      intros r d t Hin; destruct (Hlines _ Hin) as [Hold | (r' & d' & t' & Heq)];
      [| discriminate Heq];
      rewrite !output_app in Hold; simpl in Hold
  end.
  destruct Hold as [Heq | []]. discriminate Heq.
Qed.

Lemma list_neq_snoc {A} (l : list A) (x : A) : l <> l ++ [x].
Proof.
  intros H. apply (f_equal (@List.length A)) in H.
  rewrite length_snoc in H. lia.
Qed.

(** C6: a cycle writes a report line exactly when it is exceeded or the
    throttle test holds, and an exceeded cycle always writes the
    exceeded-deadline line; with [print_per_sec = 0] the worker, however many
    cycles it runs, never writes a routine line, and still writes the
    exceeded-deadline line of every exceeded cycle. *)
Theorem report_emission :
  (forall (pinfo : period_info) (e : env) (tr tr' : list event),
     do_rt_task pinfo e tr = Some (tt, tr') ->
     exists info,
       print_info pinfo = Some info
       /\ ((exists line, output tr' = output tr ++ [line])
           <-> period_exceeded pinfo (env_clock e (List.length tr)) || info
               = true)
       /\ (period_exceeded pinfo (env_clock e (List.length tr)) || info
           = false -> output tr' = output tr)
       /\ (period_exceeded pinfo (env_clock e (List.length tr)) = true ->
           exists r d t, output tr' = output tr ++ [ExceededLine r d t]))
  /\ (forall (data : task_data) (n : nat) (e : env),
        td_print_per_sec data = 0 ->
        exists p' tr',
          simple_cyclic_task data n e [] = Some (p', tr')
          /\ forall r d t, ~ In (InfoLine r d t) (output tr'))
  /\ (forall (pinfo : period_info) (e : env) (tr : list event),
        print_rate pinfo = 0 ->
        period_exceeded pinfo (env_clock e (List.length tr)) = true ->
        exists tr' r d t,
          do_rt_task pinfo e tr = Some (tt, tr')
          /\ output tr' = output tr ++ [ExceededLine r d t]).
Proof.
  split; [| split].
  - intros pinfo e tr tr' Hrun.
    destruct (do_rt_task_inv _ _ _ _ _ Hrun) as (info & Hi & Hout & _).
    exists info. split; [exact Hi |].
    rewrite Hout. unfold cycle_lines.
    destruct (period_exceeded pinfo (env_clock e (List.length tr)));
      [| destruct info]; simpl.
    + repeat split; try reflexivity; try discriminate.
      * eexists. reflexivity.
      * eexists; eexists; eexists; reflexivity.
    + repeat split; try reflexivity; try discriminate.
      eexists. reflexivity.
    + rewrite app_nil_r. repeat split; try reflexivity; try discriminate.
      intros [line Hline]. exfalso. exact (list_neq_snoc _ _ Hline).
  - apply simple_cyclic_task_quiet.
  - intros pinfo e tr H0 Hex.
    pose proof (print_rate_zero_silent pinfo 0 H0) as Hinfo.
    change (iter_inc_period 0 pinfo) with pinfo in Hinfo.
    rewrite do_rt_task_run, Hinfo. cbv zeta. rewrite Hex.
    eexists; eexists; eexists; eexists. split; [reflexivity |].
    rewrite output_app, output_measured. reflexivity.
Qed.

(** Three cycles with reporting switched off write no routine line. *)
Lemma report_emission_witness :
  exists p' tr',
    simple_cyclic_task {| td_period_ns := 1000000; td_print_per_sec := 0 |}
      3 calm_env []
    = Some (p', tr')
    /\ forall r d t, ~ In (InfoLine r d t) (output tr').
Proof.
  apply report_emission. reflexivity.
Defined.

(** ** The option loop *)

Lemma calls_app (tr1 tr2 : list event) :
  calls (tr1 ++ tr2) = calls tr1 ++ calls tr2.
Proof. apply flat_map_app. Qed.

(** The loop always ends, and makes no call and writes nothing to standard
    output. *)
Lemma getopt_loop_returns :
  forall (opts : list (Z * string)) (data : task_data) (e : env)
         (tr : list event),
    exists r tr',
      getopt_loop opts data e tr = Some (r, tr')
      /\ calls tr' = calls tr /\ output tr' = output tr.
Proof.
  induction opts as [| [opt optarg] rest IH]; intros data e tr.
  - simpl. eexists; eexists. split; [reflexivity |].
    rewrite calls_app, output_app. simpl. rewrite !app_nil_r.
    split; reflexivity.
  - simpl.
    assert (Hc : calls (tr ++ [Getopt opt optarg]) = calls tr)
      by (rewrite calls_app; simpl; apply app_nil_r).
    assert (Ho : output (tr ++ [Getopt opt optarg]) = output tr)
      by (rewrite output_app; simpl; apply app_nil_r).
    destruct (opt =? -1).
    { eexists; eexists. split; [reflexivity |]. split; assumption. }
    destruct (opt =? opt_p).
    { match goal with
      | |- exists r tr', getopt_loop rest ?d e ?t = _ /\ _ =>
          destruct (IH d e t) as (r & tr' & Hrun & Hc' & Ho')
      end.
      exists r, tr'. split; [exact Hrun |]. split; congruence. }
    destruct (opt =? opt_r).
    { match goal with
      | |- exists r tr', getopt_loop rest ?d e ?t = _ /\ _ =>
          destruct (IH d e t) as (r & tr' & Hrun & Hc' & Ho')
      end.
      exists r, tr'. split; [exact Hrun |]. split; congruence. }
    unfold bind, fprintf_stderr, ret.
    eexists; eexists. split; [reflexivity |].
    rewrite calls_app, output_app, Hc, Ho. simpl. rewrite !app_nil_r.
    split; reflexivity.
Qed.

(** An option without a case, after recognised ones only, ends the loop in
    the [default] branch. *)
Lemma getopt_loop_usage
  (opt : Z) (optarg : string) (rest : list (Z * string)) :
  opt <> opt_p -> opt <> opt_r -> opt <> -1 ->
  forall (pre : list (Z * string)) (data : task_data) (e : env)
         (tr : list event),
    Forall recognised pre ->
    getopt_loop (pre ++ (opt, optarg) :: rest) data e tr
    = Some (inr EXIT_FAILURE,
            tr ++ map getopt_event (pre ++ [(opt, optarg)])
               ++ [Stderr (UsageLine (env_argv0 e))]).
Proof.
  intros Hp Hr Hend.
  induction pre as [| [o a] pre IH]; intros data e tr Hpre.
  - simpl.
    replace (opt =? -1) with false by (symmetry; apply Z.eqb_neq; assumption).
    replace (opt =? opt_p) with false
      by (symmetry; apply Z.eqb_neq; assumption).
    replace (opt =? opt_r) with false
      by (symmetry; apply Z.eqb_neq; assumption).
    unfold bind, fprintf_stderr, ret, getopt_event. simpl.
    rewrite <- app_assoc. reflexivity.
  - inversion Hpre as [| x l Hrec Hpre' Heq]; subst.
    simpl.
    destruct Hrec as [Ho | Ho]; simpl in Ho; subst o.
    + change (opt_p =? -1) with false. rewrite Z.eqb_refl. cbv iota.
      rewrite IH by assumption.
      unfold getopt_event at 2. simpl. rewrite <- app_assoc. reflexivity.
    + change (opt_r =? -1) with false. change (opt_r =? opt_p) with false.
      rewrite Z.eqb_refl. cbv iota.
      rewrite IH by assumption.
      unfold getopt_event at 2. simpl. rewrite <- app_assoc. reflexivity.
Qed.

Lemma main_run (e : env) :
  main e [] =
  match getopt_loop (env_getopt e)
          {| td_period_ns := 1000000; td_print_per_sec := 5 |} e [] with
  | Some (inl data, tr0) => start_worker data e tr0
  | Some (inr status, tr0) => Some (status, tr0)
  | None => None
  end.
Proof.
  unfold main, bind, ask.
  destruct (getopt_loop (env_getopt e) _ e []) as [[[data | status] tr0] |];
    reflexivity.
Qed.

(** ** C8: an unrecognised flag *)

(** C8: when [getopt], after options [main] has a case for, reports one it
    has none for, [main] writes the usage line to standard error and exits
    with [EXIT_FAILURE], which is not zero; the run makes no call at all: no
    memory is locked and no thread is created. *)
Theorem invalid_flag_exits
  (e : env) (pre rest : list (Z * string)) (opt : Z) (optarg : string) :
  env_getopt e = pre ++ (opt, optarg) :: rest ->
  Forall recognised pre ->
  opt <> opt_p -> opt <> opt_r -> opt <> -1 ->
  exists tr,
    main e [] = Some (EXIT_FAILURE, tr)
    /\ tr = map getopt_event (pre ++ [(opt, optarg)])
            ++ [Stderr (UsageLine (env_argv0 e))]
    /\ calls tr = []
    /\ wait_status EXIT_FAILURE <> 0.
Proof.
  intros Hopts Hpre Hp Hr Hend.
  rewrite main_run, Hopts.
  rewrite (getopt_loop_usage opt optarg rest Hp Hr Hend pre _ e [] Hpre).
  eexists. split; [reflexivity |]. split; [reflexivity |].
  split; [| discriminate].
  simpl. rewrite calls_app. simpl. rewrite app_nil_r.
  generalize (pre ++ [(opt, optarg)]). intros l.
  induction l as [| o l IHl]; [reflexivity | exact IHl].
Qed.

(** [rt-tester -p 2 -x -r 10] stops at [-x]. *)
Lemma invalid_flag_exits_witness :
  exists tr,
    main bad_flag_env [] = Some (EXIT_FAILURE, tr)
    /\ tr = map getopt_event ([(opt_p, "2"%string)] ++ [(63, EmptyString)])
            ++ [Stderr (UsageLine (env_argv0 bad_flag_env))]
    /\ calls tr = []
    /\ wait_status EXIT_FAILURE <> 0.
Proof.
  apply (invalid_flag_exits bad_flag_env [(opt_p, "2"%string)]
           [(opt_r, "10"%string)] 63 EmptyString).
  - reflexivity.
  - repeat constructor.
  - discriminate.
  - discriminate.
  - discriminate.
Defined.

(** ** C7: the start-up sequence *)

Lemma startup_outcome_failed (c : syscall) (r : Z) (todo : list syscall) :
  step_failed c r = true ->
  failure_code c r <> 0 ->
  startup_outcome (c :: todo) (failure_code c r) [(c, r)].
Proof.
  intros Hfail Hcode. unfold startup_outcome. repeat split.
  - exists todo. reflexivity.
  - intros i c' r' Hnth Hlen. simpl in Hlen. lia.
  - destruct i as [| [| i]]; simpl in H; try discriminate H. reflexivity.
  - destruct i as [| [| i]]; simpl in H; try discriminate H.
    injection H as <- <-. reflexivity.
  - exact Hcode.
  - exfalso. rewrite (H c r (or_introl eq_refl)) in Hfail. discriminate Hfail.
  - exfalso. rewrite (H c r (or_introl eq_refl)) in Hfail. discriminate Hfail.
Qed.

Lemma startup_outcome_passed
  (c : syscall) (r : Z) (todo : list syscall) (code : Z)
  (new : list (syscall * Z)) :
  step_failed c r = false ->
  startup_outcome todo code new ->
  startup_outcome (c :: todo) code ((c, r) :: new).
Proof.
  intros Hok (Hpre & Hbefore & Hfailed & Hclean).
  unfold startup_outcome. split; [| split; [| split]].
  - destruct Hpre as [later ->]. exists later. reflexivity.
  - intros [| i] c' r' Hnth Hlen; simpl in Hnth, Hlen.
    + injection Hnth as <- <-. exact Hok.
    + apply (Hbefore i c' r' Hnth). lia.
  - intros [| i] c' r' Hnth Hfail; simpl in Hnth.
    + injection Hnth as <- <-. rewrite Hok in Hfail. discriminate Hfail.
    + destruct (Hfailed i c' r' Hnth Hfail) as (Hlast & Hcode & Hnz).
      simpl. repeat split; [lia | exact Hcode | exact Hnz].
  - intros Hall.
    destruct Hclean as [Hmap Hzero].
    + intros c' r' Hin. apply Hall. right. exact Hin.
    + simpl. rewrite Hmap. split; [reflexivity | exact Hzero].
Qed.

(** The join: the last call, whose result is the exit code. *)
Lemma join_runs_startup :
  runs_startup [PthreadJoin]
    (joined <- call PthreadJoin ;;
     (if joined =? 0 then ret tt
      else en <- errno ;;
           printf (FailureLine "join pthread failed" en)) ;;;
     ret joined).
Proof.
  intros e tr. unfold bind, call, errno, printf, ret.
  set (r := env_int e (List.length tr)).
  destruct (r =? 0) eqn:Hr.
  - eexists; eexists; exists [(PthreadJoin, r)].
    split; [reflexivity |]. split.
    + rewrite calls_app. reflexivity.
    + apply Z.eqb_eq in Hr. rewrite Hr.
      unfold startup_outcome. repeat split.
      * exists []. reflexivity.
      * intros i c r' Hnth Hlen. simpl in Hlen. lia.
      * destruct i as [| [| i]]; simpl in H; try discriminate H. reflexivity.
      * destruct i as [| [| i]]; simpl in H; try discriminate H.
        injection H as <- <-. discriminate H0.
      * destruct i as [| [| i]]; simpl in H; try discriminate H.
        injection H as <- <-. discriminate H0.
  - eexists; eexists; exists [(PthreadJoin, r)].
    split; [reflexivity |]. split.
    + rewrite !calls_app. simpl. rewrite app_nil_r. reflexivity.
    + apply (startup_outcome_failed PthreadJoin r []).
      * simpl. rewrite Hr. reflexivity.
      * simpl. apply Z.eqb_neq. exact Hr.
Qed.

(** One checked pthread call in front of the rest of the start-up. *)
Lemma step_or_out_runs_startup
  (c : syscall) (what : string) (todo : list syscall) (rest : M Z) :
  (forall r, step_failed c r = negb (r =? 0)) ->
  (forall r, failure_code c r = r) ->
  runs_startup todo rest ->
  runs_startup (c :: todo) (step_or_out c what rest).
Proof.
  intros Hstep Hcode Hrest e tr. unfold step_or_out, bind, call, printf, ret.
  set (r := env_int e (List.length tr)).
  destruct (r =? 0) eqn:Hr.
  - destruct (Hrest e (tr ++ [Call c r])) as (code & tr' & new & Hrun & Hc & Hout).
    exists code, tr', ((c, r) :: new).
    split; [exact Hrun |]. split.
    + rewrite Hc, calls_app, <- app_assoc. reflexivity.
    + apply startup_outcome_passed; [| exact Hout].
      rewrite Hstep, Hr. reflexivity.
  - eexists; eexists; exists [(c, r)].
    split; [reflexivity |]. split.
    + rewrite !calls_app. simpl. rewrite app_nil_r. reflexivity.
    + rewrite <- (Hcode r) at 1.
      apply startup_outcome_failed.
      * rewrite Hstep, Hr. reflexivity.
      * rewrite Hcode. apply Z.eqb_neq. exact Hr.
Qed.

Lemma start_worker_runs_startup (data : task_data) :
  runs_startup (startup_sequence data ++ [PthreadJoin]) (start_worker data).
Proof.
  intros e tr. unfold start_worker.
  unfold bind at 1. unfold call at 1. cbv beta iota zeta.
  set (r := env_int e (List.length tr)).
  destruct (r =? -1) eqn:Hr.
  - unfold bind, errno, printf, ret.
    eexists; eexists; exists [(Mlockall 3, r)].
    split; [reflexivity |]. split.
    + rewrite !calls_app. simpl. rewrite app_nil_r. reflexivity.
    + apply (startup_outcome_failed (Mlockall 3) r);
        [exact Hr | discriminate].
  - match goal with
    | |- exists code tr' new, ?m e ?t = _ /\ _ =>
        assert (Hrest : runs_startup
                          (tl (startup_sequence data) ++ [PthreadJoin]) m)
    end.
    { repeat (apply step_or_out_runs_startup;
              [intros; reflexivity | intros; reflexivity |]).
      apply join_runs_startup. }
    destruct (Hrest e (tr ++ [Call (Mlockall (Z.lor MCL_CURRENT MCL_FUTURE)) r]))
      as (code & tr' & new & Hrun & Hc & Hout).
    exists code, tr', ((Mlockall 3, r) :: new).
    split; [exact Hrun |]. split.
    + rewrite Hc, calls_app, <- app_assoc. reflexivity.
    + apply (startup_outcome_passed (Mlockall 3) r); [exact Hr | exact Hout].
Qed.

Lemma prefix_nth_error
  (todo : list syscall) (new : list (syscall * Z)) (later : list syscall)
  (i : nat) (c : syscall) (r : Z) :
  todo = map fst new ++ later ->
  nth_error new i = Some (c, r) ->
  nth_error todo i = Some c.
Proof.
  intros -> Hnth.
  rewrite nth_error_app1.
  - rewrite nth_error_map, Hnth. reflexivity.
  - rewrite length_map. apply nth_error_Some. rewrite Hnth. discriminate.
Qed.

(** C7: when the options are accepted, [main] returns, and its calls are an
    initial part of the fixed sequence memory lock, attribute
    initialisation, stack size, scheduling policy, priority, explicit
    inheritance, thread creation, join.  Every call before the last one made
    has succeeded.  A failed call is the last one made; the exit code is then
    not zero: it is -2 when the memory lock failed and the error number the
    failing call returned otherwise; and if that call is one of the six
    before thread creation, no thread has been created.  With no failed call
    the whole sequence has run and the exit code is zero. *)
Theorem startup_atomic (e : env) (data : task_data) (tr0 : list event) :
  getopt_loop (env_getopt e)
    {| td_period_ns := 1000000; td_print_per_sec := 5 |} e []
  = Some (inl data, tr0) ->
  exists code tr,
    main e [] = Some (code, tr)
    /\ (exists later,
          startup_sequence data ++ [PthreadJoin]
          = map fst (calls tr) ++ later)
    /\ (forall i c r,
          nth_error (calls tr) i = Some (c, r) ->
          (S i < List.length (calls tr))%nat ->
          step_failed c r = false)
    /\ (forall i c r,
          nth_error (calls tr) i = Some (c, r) ->
          step_failed c r = true ->
          S i = List.length (calls tr)
          /\ code <> 0
          /\ (i = 0%nat -> code = -2)
          /\ (i <> 0%nat -> code = r)
          /\ ((i < 6)%nat ->
              forall r', ~ In (PthreadCreate data, r') (calls tr)))
    /\ ((forall c r, In (c, r) (calls tr) -> step_failed c r = false) ->
        map fst (calls tr) = startup_sequence data ++ [PthreadJoin]
        /\ code = 0).
Proof.
  intros Hopts.
  destruct (getopt_loop_returns (env_getopt e)
              {| td_period_ns := 1000000; td_print_per_sec := 5 |} e [])
    as (r0 & tr0' & Hrun0 & Hcalls0 & _).
  rewrite Hopts in Hrun0. injection Hrun0 as <- <-.
  destruct (start_worker_runs_startup data e tr0)
    as (code & tr & new & Hrun & Hcalls & Hpre & Hbefore & Hfailed & Hclean).
  rewrite Hcalls0 in Hcalls. simpl in Hcalls. subst new.
  exists code, tr.
  split; [rewrite main_run, Hopts; exact Hrun |].
  split; [exact Hpre |]. split; [exact Hbefore |]. split; [| exact Hclean].
  intros i c r Hnth Hfail.
  destruct (Hfailed i c r Hnth Hfail) as (Hlast & Hcode & Hnz).
  destruct Hpre as [later Hpre].
  pose proof (prefix_nth_error _ _ _ _ _ _ Hpre Hnth) as Hpos.
  split; [exact Hlast |]. split; [exact Hnz |].
  split; [| split].
  - intros ->. simpl in Hpos. injection Hpos as <-. exact Hcode.
  - intros Hi. rewrite Hcode.
    do 8 (destruct i as [| i];
          [simpl in Hpos; injection Hpos as <-; try reflexivity; lia |]).
    simpl in Hpos. destruct i; discriminate Hpos.
  - intros Hi r' Hin.
    apply In_nth_error in Hin. destruct Hin as [j Hj].
    assert (Hjlt : (j < List.length (calls tr))%nat)
      by (apply nth_error_Some; rewrite Hj; discriminate).
    pose proof (prefix_nth_error _ _ _ _ _ _ Hpre Hj) as Hjpos.
    do 6 (destruct j as [| j]; [simpl in Hjpos; discriminate Hjpos |]).
    lia.
Qed.

(** When the stack size is refused with error 22, [main] returns 22 after
    three calls. *)
Lemma startup_atomic_witness :
  exists code tr,
    main stack_fails_env [] = Some (code, tr)
    /\ (exists later,
          startup_sequence {| td_period_ns := 1000000; td_print_per_sec := 5 |}
            ++ [PthreadJoin]
          = map fst (calls tr) ++ later)
    /\ (forall i c r,
          nth_error (calls tr) i = Some (c, r) ->
          (S i < List.length (calls tr))%nat ->
          step_failed c r = false)
    /\ (forall i c r,
          nth_error (calls tr) i = Some (c, r) ->
          step_failed c r = true ->
          S i = List.length (calls tr)
          /\ code <> 0
          /\ (i = 0%nat -> code = -2)
          /\ (i <> 0%nat -> code = r)
          /\ ((i < 6)%nat ->
              forall r',
                ~ In (PthreadCreate
                        {| td_period_ns := 1000000; td_print_per_sec := 5 |},
                      r') (calls tr)))
    /\ ((forall c r, In (c, r) (calls tr) -> step_failed c r = false) ->
        map fst (calls tr)
        = startup_sequence {| td_period_ns := 1000000; td_print_per_sec := 5 |}
            ++ [PthreadJoin]
        /\ code = 0).
Proof.
  apply (startup_atomic stack_fails_env
           {| td_period_ns := 1000000; td_print_per_sec := 5 |}
           [Getopt (-1) EmptyString]).
  reflexivity.
Defined.

Example stack_fails_run :
  main stack_fails_env []
  = Some (22,
          [ Getopt (-1) EmptyString;
            Call (Mlockall 3) 0;
            Call PthreadAttrInit 0;
            Call PthreadAttrSetstacksize 22;
            Stdout (FailureLine "pthread setstacksize failed" 22) ]).
Proof. vm_compute. reflexivity. Qed.

Example mlockall_fails_run :
  main {| env_int := fun _ => -1;
          env_aux := fun _ => 12;
          env_clock := fun _ => {| tv_sec := 0; tv_nsec := 0 |};
          env_argv0 := "rt-tester";
          env_getopt := [];
          env_atol := fun _ => 0;
          env_atof_1e6 := fun _ => 0 |} []
  = Some (-2,
          [ Getopt (-1) EmptyString;
            Call (Mlockall 3) (-1);
            Stdout (FailureLine "mlockall failed" 12) ]).
Proof. vm_compute. reflexivity. Qed.

Example mlockall_status : wait_status (-2) = 254.
Proof. reflexivity. Qed.

(** * Further properties of the code *)

(** ** [diff_nanosec] on clock readings *)

(** For two normalised timestamps whose seconds lie in [[0, 9e9]], as the
    monotonic clock gives them, [diff_nanosec] is the exact signed distance
    in nanoseconds. *)
Theorem diff_nanosec_clock (time1 time0 : timespec) :
  0 <= tv_sec time1 <= 9000000000 ->
  0 <= tv_sec time0 <= 9000000000 ->
  0 <= tv_nsec time1 < 1000000000 ->
  0 <= tv_nsec time0 < 1000000000 ->
  diff_nanosec time1 time0 = total_ns time1 - total_ns time0.
Proof.
  intros Hs1 Hs0 Hn1 Hn0.
  apply diff_nanosec_exact;
    unfold Long.in_range, Long.min_signed, Long.max_signed, total_ns,
      NSEC_PER_SEC; lia.
Qed.

Lemma diff_nanosec_clock_witness :
  diff_nanosec {| tv_sec := 101; tv_nsec := 200 |}
               {| tv_sec := 100; tv_nsec := 999999900 |}
  = total_ns {| tv_sec := 101; tv_nsec := 200 |}
    - total_ns {| tv_sec := 100; tv_nsec := 999999900 |}.
Proof.
  apply (diff_nanosec_clock {| tv_sec := 101; tv_nsec := 200 |}
           {| tv_sec := 100; tv_nsec := 999999900 |});
    split; (discriminate || reflexivity).
Defined.

(** ** When the initialisation traps *)

(** [periodic_task_init] traps, before it reads the clock, exactly when a
    rate is requested and the product [period_ns * print_per_sec], as a
    [long], is zero: the division by it has no result.  A period of zero with
    any non-zero rate is such a case. *)
Theorem periodic_task_init_traps
  (period_ns print_per_sec : Z) (e : env) (tr : list event) :
  (periodic_task_init period_ns print_per_sec e tr = None
   <-> print_per_sec <> 0 /\ Long.mul period_ns print_per_sec = 0)
  /\ (period_ns = 0 -> print_per_sec <> 0 ->
      periodic_task_init period_ns print_per_sec e tr = None).
Proof.
  assert (Hiff :
    periodic_task_init period_ns print_per_sec e tr = None
    <-> print_per_sec <> 0 /\ Long.mul period_ns print_per_sec = 0).
  { rewrite periodic_task_init_run. unfold print_rate_of, Long.div, Long.traps.
    destruct (Z.eqb_spec print_per_sec 0) as [H0 | H0].
    - split; [discriminate | intros [Hne _]; contradiction].
    - destruct (Z.eqb_spec (Long.mul period_ns print_per_sec) 0) as [Hz | Hz].
      + simpl. split; [intros _; split; assumption | reflexivity].
      + simpl. split; [discriminate | intros [_ Hz']; contradiction]. }
  split; [exact Hiff |].
  intros HP Hr. apply Hiff. split; [exact Hr |].
  rewrite HP. reflexivity.
Qed.

Lemma periodic_task_init_traps_witness :
  periodic_task_init 0 5 calm_env [] = None.
Proof.
  apply (periodic_task_init_traps 0 5 calm_env []).
  - reflexivity.
  - discriminate.
Defined.

(** ** [inc_period] outside its usual inputs *)

(** When the sum [tv_nsec + period_ns] is a [long] below one second,
    [inc_period] stores it and leaves the seconds alone.  It never borrows:
    with a negative period the nanoseconds can go below zero, and with a
    period of zero the deadline stays where it is. *)
Theorem inc_period_no_carry (pinfo : period_info) :
  Long.min_signed <= tv_nsec (next_period pinfo) + period_ns pinfo
    < 1000000000 ->
  next_period (inc_period pinfo)
  = {| tv_sec := tv_sec (next_period pinfo);
       tv_nsec := tv_nsec (next_period pinfo) + period_ns pinfo |}.
Proof.
  intros H. unfold inc_period. cbn [next_period]. unfold Long.add.
  rewrite wrap_in_range
    by (unfold Long.in_range, Long.min_signed, Long.max_signed in *; lia).
  apply inc_period_loop_below. cbn [tv_nsec]. lia.
Qed.

Lemma inc_period_no_carry_witness :
  next_period (inc_period backward_pinfo)
  = {| tv_sec := 50; tv_nsec := 100 + -500 |}.
Proof.
  apply (inc_period_no_carry backward_pinfo).
  split; [discriminate | reflexivity].
Defined.

(** Whenever the sum [tv_nsec + period_ns] is a [long] that is not negative
    and the seconds stay in range, [inc_period] returns a normalised deadline
    exactly [period_ns] after the old one: also from a deadline that was not
    normalised, and for a period that is zero or negative. *)
Theorem inc_period_renormalises (pinfo : period_info) :
  0 <= tv_nsec (next_period pinfo) + period_ns pinfo <= Long.max_signed ->
  Long.min_signed <= tv_sec (next_period pinfo) ->
  tv_sec (next_period pinfo)
  + (tv_nsec (next_period pinfo) + period_ns pinfo) / 1000000000
  <= Long.max_signed ->
  0 <= tv_nsec (next_period (inc_period pinfo)) < 1000000000
  /\ total_ns (next_period (inc_period pinfo))
     = total_ns (next_period pinfo) + period_ns pinfo.
Proof.
  intros Hsum Hs Hfit.
  pose proof (inc_period_nsec pinfo Hsum) as Hnsec.
  pose proof (inc_period_sec pinfo Hsum Hs Hfit) as Hsec.
  pose proof (Z.mod_pos_bound
                (tv_nsec (next_period pinfo) + period_ns pinfo)
                1000000000 ltac:(lia)) as Hmod.
  pose proof (Z.div_mod (tv_nsec (next_period pinfo) + period_ns pinfo)
                1000000000 ltac:(lia)) as Hdm.
  split; [lia |].
  unfold total_ns, NSEC_PER_SEC. rewrite Hsec, Hnsec. lia.
Qed.

Lemma inc_period_renormalises_witness :
  0 <= tv_nsec (next_period (inc_period unnormalised_pinfo)) < 1000000000
  /\ total_ns (next_period (inc_period unnormalised_pinfo))
     = total_ns (next_period unnormalised_pinfo) + 1000000.
Proof.
  apply (inc_period_renormalises unnormalised_pinfo).
  - split; discriminate.
  - discriminate.
  - vm_compute. discriminate.
Defined.

(** ** The lines of a run *)

Lemma cycle_lines_shape
  (pinfo : period_info) (info : bool) (e : env) (tr : list event) :
  (List.length (cycle_lines pinfo info e tr) <= 1)%nat
  /\ Forall (line_consistent (period_ns pinfo)) (cycle_lines pinfo info e tr).
Proof.
  unfold cycle_lines, period_exceeded.
  destruct (Z.gtb_spec
              (diff_nanosec (env_clock e (List.length tr)) (next_period pinfo))
              (period_ns pinfo)) as [Hgt | Hle].
  - split; [simpl; lia |]. constructor; [| constructor]. simpl. lia.
  - destruct info.
    + split; [simpl; lia |]. constructor; [| constructor]. simpl. exact Hle.
    + split; [simpl; lia | constructor].
Qed.

(** What [n] turns of the loop add to standard output. *)
Lemma cyclic_loop_output :
  forall (n : nat) (pinfo : period_info) (e : env) (tr : list event)
         (p' : period_info) (tr' : list event),
    cyclic_loop n pinfo e tr = Some (p', tr') ->
    exists new,
      output tr' = output tr ++ new
      /\ (List.length new <= n)%nat
      /\ Forall (line_consistent (period_ns pinfo)) new.
Proof.
  induction n as [| n IH]; intros pinfo e tr p' tr' Hrun.
  - simpl in Hrun. injection Hrun as <- <-.
    exists []. rewrite app_nil_r. repeat split; [simpl; lia | constructor].
  - rewrite cyclic_loop_S in Hrun.
    destruct (do_rt_task pinfo e tr) as [[u tr1] |] eqn:Htask;
      [| discriminate].
    destruct (do_rt_task_inv _ _ _ _ _ Htask) as (info & _ & Hout & _).
    destruct (cycle_lines_shape pinfo info e tr) as [Hlen Hcons].
    apply IH in Hrun. destruct Hrun as (new & Hnew & Hlen' & Hcons').
    rewrite inc_period_period_ns in Hcons'.
    rewrite output_app, Hout in Hnew.
    change (output [Call (ClockNanosleep CLOCK_MONOTONIC TIMER_ABSTIME
                            (next_period (inc_period pinfo)))
                         (env_int e (List.length tr1))])
      with (@nil text) in Hnew.
    rewrite app_nil_r, <- app_assoc in Hnew.
    exists (cycle_lines pinfo info e tr ++ new).
    split; [exact Hnew |]. split.
    + rewrite length_app. lia.
    + apply Forall_app. split; assumption.
Qed.



(** A cycle never writes more than one line: [n] turns of the loop add at
    most [n] lines to standard output. *)
Theorem at_most_one_line_per_cycle
  (n : nat) (pinfo : period_info) (e : env) (tr : list event)
  (p' : period_info) (tr' : list event) :
  cyclic_loop n pinfo e tr = Some (p', tr') ->
  (List.length (output tr') <= List.length (output tr) + n)%nat.
Proof.
  intros Hrun.
  destruct (cyclic_loop_output n pinfo e tr p' tr' Hrun)
    as (new & Hnew & Hlen & _).
  rewrite Hnew, length_app. lia.
Qed.

Lemma at_most_one_line_per_cycle_witness :
  exists p' tr',
    cyclic_loop 2 default_pinfo calm_env [] = Some (p', tr')
    /\ (List.length (output tr') <= List.length (output []) + 2)%nat.
Proof.
  eexists; eexists. split; [vm_compute; reflexivity |].
  eapply (at_most_one_line_per_cycle 2%nat default_pinfo calm_env []).
  vm_compute. reflexivity.
Defined.

(** ** The deadlines handed to the kernel *)

(** While nothing overflows, the requests of the successive
    [clock_nanosleep] calls of a run, read as nanoseconds, are the initial
    deadline plus one, two, three, ... periods: an arithmetic progression
    that no clock reading and no return value of an earlier wait enters. *)
Theorem wait_requests_progression
  (n : nat) (pinfo : period_info) (e : env) (tr : list event)
  (p' : period_info) (tr' : list event) :
  0 < period_ns pinfo ->
  0 <= tv_nsec (next_period pinfo) < 1000000000 ->
  period_ns pinfo <= Long.max_signed - 999999999 ->
  Long.min_signed <= tv_sec (next_period pinfo) ->
  tv_sec (next_period pinfo)
  + (tv_nsec (next_period pinfo) + Z.of_nat n * period_ns pinfo) / 1000000000
  <= Long.max_signed ->
  cyclic_loop n pinfo e tr = Some (p', tr') ->
  map (fun s => total_ns (snd (fst s))) (sleeps tr')
  = map (fun s => total_ns (snd (fst s))) (sleeps tr)
    ++ map (fun i => total_ns (next_period pinfo)
                     + (Z.of_nat i + 1) * period_ns pinfo)
           (seq 0 n).
Proof.
  intros HP Hn HPmax Hs Hfit Hrun.
  destruct (cyclic_loop_sleeps n pinfo e tr p' tr' Hrun) as [_ Hsl].
  rewrite <- (map_map fst (fun x => total_ns (snd x)) (sleeps tr')).
  rewrite Hsl, map_app, !map_map. apply f_equal.
  apply map_ext_in. intros i Hi. apply in_seq in Hi. cbn [snd].
  assert (Hmono :
    (tv_nsec (next_period pinfo) + Z.of_nat (S i) * period_ns pinfo)
      / 1000000000
    <= (tv_nsec (next_period pinfo) + Z.of_nat n * period_ns pinfo)
       / 1000000000).
  { apply Z.div_le_mono; [lia | nia]. }
  destruct (iter_inc_period_invariant (S i) pinfo HP Hn HPmax Hs ltac:(lia))
    as (_ & _ & Htot).
  rewrite Htot. lia.
Qed.

Lemma wait_requests_progression_witness :
  exists p' tr',
    cyclic_loop 2 default_pinfo calm_env [] = Some (p', tr')
    /\ map (fun s => total_ns (snd (fst s))) (sleeps tr')
       = map (fun s => total_ns (snd (fst s))) (sleeps [])
         ++ map (fun i => total_ns (next_period default_pinfo)
                          + (Z.of_nat i + 1) * period_ns default_pinfo)
                (seq 0 2).
Proof.
  eexists; eexists. split; [vm_compute; reflexivity |].
  eapply (wait_requests_progression 2%nat default_pinfo calm_env []).
  - reflexivity.
  - split; [discriminate | reflexivity].
  - discriminate.
  - discriminate.
  - vm_compute. discriminate.
  - vm_compute. reflexivity.
Defined.

(** ** The worker under a sound configuration *)

(** With a period in [[1, LONG_MAX - 999_999_999]], a rate that is not
    negative and whose product with the period is a [long], and a normalised
    first clock reading whose seconds leave room for [n] periods, the worker
    runs its first [n] cycles without trapping, and its deadline is then the
    first clock reading plus exactly [n] periods. *)
Theorem worker_runs (data : task_data) (n : nat) (e : env) :
  0 < td_period_ns data <= Long.max_signed - 999999999 ->
  0 <= td_print_per_sec data ->
  td_period_ns data * td_print_per_sec data <= Long.max_signed ->
  0 <= tv_nsec (env_clock e 4) < 1000000000 ->
  Long.min_signed <= tv_sec (env_clock e 4) ->
  tv_sec (env_clock e 4)
  + (tv_nsec (env_clock e 4) + Z.of_nat n * td_period_ns data) / 1000000000
  <= Long.max_signed ->
  exists p' tr',
    simple_cyclic_task data n e [] = Some (p', tr')
    /\ period_ns p' = td_period_ns data
    /\ total_ns (next_period p')
       = total_ns (env_clock e 4) + Z.of_nat n * td_period_ns data.
Proof.
  intros HP Hr Hprod Hn Hs Hfit. unfold simple_cyclic_task.
  unfold bind at 1. unfold call at 1. cbv iota beta zeta.
  unfold bind at 1. unfold call at 1. cbv iota beta zeta.
  unfold bind at 1. unfold call_out at 1. cbv iota beta zeta.
  unfold bind at 1. unfold printf at 1. cbv iota beta zeta.
  unfold bind at 1. rewrite periodic_task_init_run.
  rewrite print_rate_of_exact by lia. cbv iota beta.
  rewrite !length_snoc. cbn [List.length].
  match goal with
  | |- exists p' tr', cyclic_loop n ?p e ?t = _ /\ _ => set (pinfo := p)
  end.
  assert (Hinv :
    forall i, (i <= n)%nat ->
      0 <= tv_nsec (next_period (iter_inc_period i pinfo)) < 1000000000
      /\ total_ns (next_period (iter_inc_period i pinfo))
         = total_ns (env_clock e 4) + Z.of_nat i * td_period_ns data).
  { intros i Hi.
    assert (Hmono :
      (tv_nsec (env_clock e 4) + Z.of_nat i * td_period_ns data) / 1000000000
      <= (tv_nsec (env_clock e 4) + Z.of_nat n * td_period_ns data)
         / 1000000000).
    { apply Z.div_le_mono; [lia | nia]. }
    destruct (iter_inc_period_invariant i pinfo) as (H1 & _ & H3);
      subst pinfo; cbn [next_period period_ns]; try lia.
    split; assumption. }
  match goal with
  | |- exists p' tr', cyclic_loop n pinfo e ?t = _ /\ _ =>
      destruct (cyclic_loop_state n pinfo e t) as [tr' Hrun]
  end.
  - subst pinfo. cbn [period_ns]. lia.
  - intros i Hi. apply (Hinv i). lia.
  - exists (iter_inc_period n pinfo), tr'.
    split; [exact Hrun |]. split.
    + rewrite iter_inc_period_period_ns. reflexivity.
    + apply (Hinv n). lia.
Qed.

Lemma worker_runs_witness :
  exists p' tr',
    simple_cyclic_task {| td_period_ns := 1000000; td_print_per_sec := 5 |}
      3 calm_env []
    = Some (p', tr')
    /\ period_ns p' = 1000000
    /\ total_ns (next_period p')
       = total_ns (env_clock calm_env 4) + Z.of_nat 3 * 1000000.
Proof.
  apply (worker_runs {| td_period_ns := 1000000; td_print_per_sec := 5 |}
           3 calm_env).
  - split; [reflexivity | discriminate].
  - discriminate.
  - discriminate.
  - split; [discriminate | reflexivity].
  - discriminate.
  - vm_compute. discriminate.
Defined.

(** ** When a cycle traps *)

Lemma quot_min_signed (n p : Z) :
  Long.in_range n -> p <> 0 ->
  (Z.quot n p = Long.min_signed <-> n = Long.min_signed /\ p = 1).
Proof.
  unfold Long.in_range, Long.min_signed, Long.max_signed.
  intros Hn Hp. split.
  - intros Hq.
    destruct (Z.eq_dec p 1) as [-> | Hp1].
    { rewrite Z.quot_1_r in Hq. split; [exact Hq | reflexivity]. }
    destruct (Z.eq_dec p (-1)) as [-> | Hpm1].
    { change (-1) with (- (1)) in Hq.
      rewrite Z.quot_opp_r, Z.quot_1_r in Hq by lia. lia. }
    exfalso.
    pose proof (Z.quot_abs n p Hp) as Habs.
    rewrite Z.quot_div_nonneg in Habs by lia.
    assert (Hle : Z.abs n / Z.abs p <= Z.abs n / 2)
      by (apply Z.div_le_compat_l; lia).
    assert (Hhalf : Z.abs n / 2 <= 4611686018427387904)
      by (apply Z.div_le_upper_bound; lia).
    rewrite Hq in Habs. lia.
  - intros [-> ->]. apply Z.quot_1_r.
Qed.

Lemma print_info_none (pinfo : period_info) :
  Long.in_range (tv_nsec (next_period pinfo)) ->
  (print_info pinfo = None
   <-> print_rate pinfo <> 0
       /\ (period_ns pinfo = 0
           \/ (tv_nsec (next_period pinfo) = Long.min_signed
               /\ (period_ns pinfo = -1
                   \/ (period_ns pinfo = 1 /\ print_rate pinfo = -1))))).
Proof.
  intros Hn. unfold print_info, Long.div, Long.rem, Long.traps.
  destruct (Z.eqb_spec (print_rate pinfo) 0) as [HR | HR].
  { split; [discriminate | intros [H _]; contradiction]. }
  destruct (Z.eqb_spec (period_ns pinfo) 0) as [HP | HP].
  { simpl. split; [intros _; split; [exact HR | left; exact HP] | reflexivity]. }
  pose proof (quot_min_signed _ _ Hn HP) as Hq.
  destruct (Z.eqb_spec (tv_nsec (next_period pinfo)) Long.min_signed)
    as [Hmin | Hmin];
    destruct (Z.eqb_spec (period_ns pinfo) (-1)) as [Hm1 | Hm1];
    cbn [orb andb].
  - split; [intros _ | reflexivity].
    split; [exact HR | right; split; [exact Hmin | left; exact Hm1]].
  - destruct (Z.eqb_spec
                (Z.quot (tv_nsec (next_period pinfo)) (period_ns pinfo))
                Long.min_signed) as [Hqm | Hqm];
      destruct (Z.eqb_spec (print_rate pinfo) (-1)) as [HR1 | HR1];
      cbn [orb andb].
    + apply Hq in Hqm. destruct Hqm as [_ HP1].
      split; [intros _ | reflexivity].
      split; [exact HR |]. right. split; [exact Hmin |]. right.
      split; assumption.
    + split; [discriminate |]. intros [_ [H0 | [_ [H1 | [_ H2]]]]]; lia.
    + split; [discriminate |].
      intros [_ [H0 | [_ [H1 | [H1 _]]]]]; lia.
    + split; [discriminate |]. intros [_ [H0 | [_ [H1 | [_ H2]]]]]; lia.
  - destruct (Z.eqb_spec
                (Z.quot (tv_nsec (next_period pinfo)) (period_ns pinfo))
                Long.min_signed) as [Hqm | Hqm].
    + apply Hq in Hqm. destruct Hqm as [Hmin' _]. contradiction.
    + cbn [orb andb]. split; [discriminate |].
      intros [_ [H0 | [Hmin' _]]]; [lia | contradiction].
  - destruct (Z.eqb_spec
                (Z.quot (tv_nsec (next_period pinfo)) (period_ns pinfo))
                Long.min_signed) as [Hqm | Hqm].
    + apply Hq in Hqm. destruct Hqm as [Hmin' _]. contradiction.
    + cbn [orb andb]. split; [discriminate |].
      intros [_ [H0 | [Hmin' _]]]; [lia | contradiction].
Qed.

(** A cycle traps, in the throttle test and so before it writes anything,
    exactly when a rate is set ([print_rate <> 0]) and a division has no
    result: the period is zero, or [tv_nsec] is [LONG_MIN] and the period is
    -1, or [tv_nsec] is [LONG_MIN], the period 1 and the rate -1.  In
    particular no cycle traps with a non-zero period and nanoseconds that
    are not negative. *)
Theorem cycle_traps (pinfo : period_info) (e : env) (tr : list event) :
  Long.in_range (tv_nsec (next_period pinfo)) ->
  (do_rt_task pinfo e tr = None
   <-> print_rate pinfo <> 0
       /\ (period_ns pinfo = 0
           \/ (tv_nsec (next_period pinfo) = Long.min_signed
               /\ (period_ns pinfo = -1
                   \/ (period_ns pinfo = 1 /\ print_rate pinfo = -1))))).
Proof.
  intros Hn. rewrite <- (print_info_none pinfo Hn).
  rewrite do_rt_task_run.
  destruct (print_info pinfo) as [info |].
  - cbv zeta. split; discriminate.
  - split; reflexivity.
Qed.

Lemma cycle_traps_witness :
  do_rt_task zero_period_pinfo calm_env [] = None.
Proof.
  apply (cycle_traps zero_period_pinfo calm_env []).
  - split; discriminate.
  - split; [discriminate | left; reflexivity].
Defined.

(** ** The option loop on recognised options *)

Lemma getopt_loop_recognised :
  forall (opts : list (Z * string)) (data : task_data) (e : env)
         (tr : list event),
    Forall recognised opts ->
    getopt_loop opts data e tr
    = Some (inl (fold_left (apply_option e) opts data),
            tr ++ map getopt_event opts ++ [Getopt (-1) EmptyString]).
Proof.
  induction opts as [| [o a] opts IH]; intros data e tr Hrec.
  - reflexivity.
  - inversion Hrec as [| x l Ho Hrest Heq]; subst.
    cbn [getopt_loop fold_left map].
    destruct Ho as [Ho | Ho]; cbn [fst] in Ho; subst o.
    + change (opt_p =? -1) with false. rewrite Z.eqb_refl. cbv iota.
      rewrite IH by assumption.
      rewrite <- app_assoc. reflexivity.
    + change (opt_r =? -1) with false. change (opt_r =? opt_p) with false.
      rewrite Z.eqb_refl. cbv iota.
      rewrite IH by assumption.
      rewrite <- app_assoc. reflexivity.
Qed.

Lemma fold_options_keep_period
  (e : env) (opts : list (Z * string)) (data : task_data) :
  Forall (fun o => fst o = opt_r) opts ->
  td_period_ns (fold_left (apply_option e) opts data) = td_period_ns data.
Proof.
  revert data. induction opts as [| [o a] opts IH]; intros data Hr.
  - reflexivity.
  - inversion Hr as [| x l Ho Hrest Heq]; subst. cbn [fst] in Ho. subst o.
    cbn [fold_left]. rewrite IH by assumption. reflexivity.
Qed.

Lemma fold_options_keep_rate
  (e : env) (opts : list (Z * string)) (data : task_data) :
  Forall (fun o => fst o = opt_p) opts ->
  td_print_per_sec (fold_left (apply_option e) opts data)
  = td_print_per_sec data.
Proof.
  revert data. induction opts as [| [o a] opts IH]; intros data Hr.
  - reflexivity.
  - inversion Hr as [| x l Ho Hrest Heq]; subst. cbn [fst] in Ho. subst o.
    cbn [fold_left]. rewrite IH by assumption. reflexivity.
Qed.

Lemma recognised_other
  (c : Z) (opts : list (Z * string)) :
  Forall recognised opts ->
  Forall (fun o => fst o <> c) opts ->
  (c = opt_p -> Forall (fun o => fst o = opt_r) opts)
  /\ (c = opt_r -> Forall (fun o => fst o = opt_p) opts).
Proof.
  intros Hrec Hne.
  split; intros ->; apply Forall_forall; intros o Hin;
    pose proof (proj1 (Forall_forall _ _) Hrec o Hin) as [H | H];
    pose proof (proj1 (Forall_forall _ _) Hne o Hin) as H';
    congruence.
Qed.

(** When the same option is given more than once the last one counts: after
    recognised options, an option [-p a] followed only by [-r] options leaves
    the period converted from [a], and an option [-r a] followed only by
    [-p] options leaves the rate converted from [a]; the loop ends normally
    and [main] goes on with that task data. *)
Theorem last_option_wins
  (e : env) (pre post : list (Z * string)) (c : Z) (a : string)
  (data : task_data) (tr : list event) :
  Forall recognised pre ->
  Forall recognised post ->
  Forall (fun o => fst o <> c) post ->
  c = opt_p \/ c = opt_r ->
  exists d tr',
    getopt_loop (pre ++ (c, a) :: post) data e tr = Some (inl d, tr')
    /\ (c = opt_p -> td_period_ns d = env_atof_1e6 e a)
    /\ (c = opt_r -> td_print_per_sec d = env_atol e a).
Proof.
  intros Hpre Hpost Hne Hc.
  assert (Hall : Forall recognised (pre ++ (c, a) :: post)).
  { apply Forall_app. split; [exact Hpre |].
    constructor; [exact Hc | exact Hpost]. }
  rewrite (getopt_loop_recognised _ data e tr Hall).
  eexists; eexists. split; [reflexivity |].
  rewrite fold_left_app. cbn [fold_left].
  destruct (recognised_other c post Hpost Hne) as [Hp Hr].
  split; intros ->.
  - rewrite fold_options_keep_period by (apply Hp; reflexivity).
    reflexivity.
  - rewrite fold_options_keep_rate by (apply Hr; reflexivity).
    reflexivity.
Qed.

Lemma last_option_wins_witness :
  exists d tr',
    getopt_loop
      ([(opt_p, "2"%string); (opt_r, "10"%string)]
         ++ (opt_p, "3"%string) :: [(opt_r, "20"%string)])
      {| td_period_ns := 1000000; td_print_per_sec := 5 |}
      repeated_options_env []
    = Some (inl d, tr')
    /\ (opt_p = opt_p ->
        td_period_ns d = env_atof_1e6 repeated_options_env "3")
    /\ (opt_p = opt_r ->
        td_print_per_sec d = env_atol repeated_options_env "3").
Proof.
  apply (last_option_wins repeated_options_env
           [(opt_p, "2"%string); (opt_r, "10"%string)]
           [(opt_r, "20"%string)] opt_p "3"%string).
  - constructor; [left; reflexivity |].
    constructor; [right; reflexivity | constructor].
  - constructor; [right; reflexivity | constructor].
  - constructor; [discriminate | constructor].
  - left. reflexivity.
Defined.

(** An option that is not given keeps its default: when [getopt] reports
    only [-r] options the period stays what it was before the loop (1 ms in
    [main]), and when it reports only [-p] options the rate stays what it
    was (5 in [main]). *)
Theorem absent_option_keeps_default
  (e : env) (opts : list (Z * string)) (data : task_data) (tr : list event) :
  (Forall (fun o => fst o = opt_r) opts ->
   exists d tr',
     getopt_loop opts data e tr = Some (inl d, tr')
     /\ td_period_ns d = td_period_ns data)
  /\ (Forall (fun o => fst o = opt_p) opts ->
      exists d tr',
        getopt_loop opts data e tr = Some (inl d, tr')
        /\ td_print_per_sec d = td_print_per_sec data).
Proof.
  split; intros Hall.
  - rewrite getopt_loop_recognised
      by (eapply Forall_impl; [| exact Hall]; intros o Ho; right; exact Ho).
    eexists; eexists. split; [reflexivity |].
    apply fold_options_keep_period. exact Hall.
  - rewrite getopt_loop_recognised
      by (eapply Forall_impl; [| exact Hall]; intros o Ho; left; exact Ho).
    eexists; eexists. split; [reflexivity |].
    apply fold_options_keep_rate. exact Hall.
Qed.

Lemma absent_option_keeps_default_witness :
  exists d tr',
    getopt_loop [(opt_r, "10"%string)]
      {| td_period_ns := 1000000; td_print_per_sec := 5 |}
      repeated_options_env []
    = Some (inl d, tr')
    /\ td_period_ns d = 1000000.
Proof.
  apply (absent_option_keeps_default repeated_options_env
           [(opt_r, "10"%string)]
           {| td_period_ns := 1000000; td_print_per_sec := 5 |} []).
  constructor; [reflexivity | constructor].
Defined.

(** ** Where [main] writes *)

Lemma errors_app (tr1 tr2 : list event) :
  errors (tr1 ++ tr2) = errors tr1 ++ errors tr2.
Proof. apply flat_map_app. Qed.


Lemma join_reports_on_stdout :
  reports_on_stdout
    (joined <- call PthreadJoin ;;
     (if joined =? 0 then ret tt
      else en <- errno ;;
           printf (FailureLine "join pthread failed" en)) ;;;
     ret joined).
Proof.
  intros e tr code tr'. unfold bind, call, errno, printf, ret.
  set (r := env_int e (List.length tr)).
  destruct (Z.eqb_spec r 0) as [Hr | Hr]; intros H; injection H as <- <-.
  - rewrite errors_app, output_app. simpl. rewrite !app_nil_r.
    split; [reflexivity |]. left. split; [exact Hr | reflexivity].
  - rewrite !errors_app, !output_app. simpl. rewrite !app_nil_r.
    split; [reflexivity |]. right. split; [exact Hr |].
    eexists; eexists; reflexivity.
Qed.

Lemma step_or_out_reports_on_stdout
  (c : syscall) (what : string) (rest : M Z) :
  reports_on_stdout rest ->
  reports_on_stdout (step_or_out c what rest).
Proof.
  intros Hrest e tr code tr'. unfold step_or_out, bind, call, printf, ret.
  set (r := env_int e (List.length tr)).
  destruct (Z.eqb_spec r 0) as [Hr | Hr]; intros H.
  - apply Hrest in H. rewrite errors_app, output_app in H.
    simpl in H. rewrite !app_nil_r in H. exact H.
  - injection H as <- <-.
    rewrite !errors_app, !output_app. simpl. rewrite !app_nil_r.
    split; [reflexivity |]. right. split; [exact Hr |].
    eexists; eexists; reflexivity.
Qed.

Lemma start_worker_reports_on_stdout (data : task_data) :
  reports_on_stdout (start_worker data).
Proof.
  intros e tr code tr'. unfold start_worker.
  unfold bind at 1. unfold call at 1. cbv beta iota zeta.
  set (r := env_int e (List.length tr)).
  destruct (r =? -1).
  - unfold bind, errno, printf, ret. intros H. injection H as <- <-.
    rewrite !errors_app, !output_app. simpl. rewrite !app_nil_r.
    split; [reflexivity |]. right. split; [discriminate |].
    eexists; eexists; reflexivity.
  - intros H.
    match type of H with
    | ?m e ?t = _ => assert (Hrest : reports_on_stdout m)
    end.
    { repeat apply step_or_out_reports_on_stdout.
      apply join_reports_on_stdout. }
    apply Hrest in H. rewrite errors_app, output_app in H.
    simpl in H. rewrite !app_nil_r in H. exact H.
Qed.



(** Once the options are accepted, [main] writes on standard output nothing
    when it returns zero, and exactly one line, a failure line, when it
    returns or exits with another code. *)
Theorem failure_reported_on_stdout
  (e : env) (data : task_data) (tr0 : list event) (code : Z)
  (tr : list event) :
  getopt_loop (env_getopt e)
    {| td_period_ns := 1000000; td_print_per_sec := 5 |} e []
  = Some (inl data, tr0) ->
  main e [] = Some (code, tr) ->
  (code = 0 /\ output tr = [])
  \/ (code <> 0 /\ exists what errnum, output tr = [FailureLine what errnum]).
Proof.
  intros Hopts. rewrite main_run, Hopts. intros Hrun.
  destruct (getopt_loop_returns (env_getopt e)
              {| td_period_ns := 1000000; td_print_per_sec := 5 |} e [])
    as (r & tr0' & Hopts' & _ & Hout).
  rewrite Hopts in Hopts'. injection Hopts' as <- <-.
  destruct (start_worker_reports_on_stdout data e tr0 code tr Hrun)
    as [_ H].
  rewrite Hout in H. exact H.
Qed.

Lemma failure_reported_on_stdout_witness :
  exists code tr,
    main stack_fails_env [] = Some (code, tr)
    /\ ((code = 0 /\ output tr = [])
        \/ (code <> 0
            /\ exists what errnum, output tr = [FailureLine what errnum])).
Proof.
  eexists; eexists. split; [vm_compute; reflexivity |].
  apply (failure_reported_on_stdout stack_fails_env
           {| td_period_ns := 1000000; td_print_per_sec := 5 |}
           [Getopt (-1) EmptyString]).
  - reflexivity.
  - vm_compute. reflexivity.
Defined.

(** ** A negative rate *)

(** A negative [-r] value acts like its absolute value: for a positive
    period and a positive rate whose product is a [long], the rate negated
    gives the negated [print_rate], and the throttle test with the negated
    [print_rate] decides as with the positive one. *)
Theorem negative_rate_mirrors
  (period print_per_sec : Z) (t : timespec) :
  0 < period ->
  0 < print_per_sec ->
  period * print_per_sec <= Long.max_signed ->
  0 <= tv_nsec t ->
  exists rate,
    print_rate_of period print_per_sec = Some rate
    /\ print_rate_of period (- print_per_sec) = Some (- rate)
    /\ print_info {| next_period := t; period_ns := period;
                     print_rate := - rate |}
       = print_info {| next_period := t; period_ns := period;
                       print_rate := rate |}.
Proof.
  intros HP Hr Hfit Hn.
  exists (1000000000 / (period * print_per_sec)).
  assert (Hprod : 0 < period * print_per_sec) by nia.
  assert (Hrate : 0 <= 1000000000 / (period * print_per_sec))
    by (apply Z.div_pos; lia).
  split; [| split].
  - rewrite print_rate_of_exact by lia.
    replace (print_per_sec =? 0) with false
      by (symmetry; apply Z.eqb_neq; lia).
    reflexivity.
  - unfold print_rate_of.
    replace (- print_per_sec =? 0) with false
      by (symmetry; apply Z.eqb_neq; lia).
    unfold Long.mul.
    replace (period * - print_per_sec) with (- (period * print_per_sec))
      by lia.
    rewrite wrap_in_range
      by (unfold Long.in_range, Long.min_signed, Long.max_signed in *; lia).
    unfold Long.div, Long.traps.
    replace (- (period * print_per_sec) =? 0) with false
      by (symmetry; apply Z.eqb_neq; lia).
    cbn [orb andb]. change (1000000000 =? Long.min_signed) with false.
    cbn [andb]. rewrite Z.quot_opp_r, Z.quot_div_nonneg by lia.
    reflexivity.
  - unfold print_info. cbn [print_rate period_ns next_period].
    destruct (Z.eqb_spec (1000000000 / (period * print_per_sec)) 0)
      as [H0 | H0].
    + rewrite H0. reflexivity.
    + replace (- (1000000000 / (period * print_per_sec)) =? 0) with false
        by (symmetry; apply Z.eqb_neq; lia).
      rewrite div_nonneg by lia.
      assert (Hq : 0 <= tv_nsec t / period) by (apply Z.div_pos; lia).
      unfold Long.rem, Long.traps.
      replace (- (1000000000 / (period * print_per_sec)) =? 0) with false
        by (symmetry; apply Z.eqb_neq; lia).
      replace (1000000000 / (period * print_per_sec) =? 0) with false
        by (symmetry; apply Z.eqb_neq; lia).
      replace (tv_nsec t / period =? Long.min_signed) with false
        by (symmetry; apply Z.eqb_neq; unfold Long.min_signed; lia).
      cbn [orb andb]. rewrite Z.rem_opp_r by lia. reflexivity.
Qed.

Lemma negative_rate_mirrors_witness :
  exists rate,
    print_rate_of 1000000 5 = Some rate
    /\ print_rate_of 1000000 (- 5) = Some (- rate)
    /\ print_info {| next_period := {| tv_sec := 100; tv_nsec := 400000000 |};
                     period_ns := 1000000;
                     print_rate := - rate |}
       = print_info {| next_period := {| tv_sec := 100;
                                         tv_nsec := 400000000 |};
                       period_ns := 1000000;
                       print_rate := rate |}.
Proof.
  apply (negative_rate_mirrors 1000000 5
           {| tv_sec := 100; tv_nsec := 400000000 |}).
  - reflexivity.
  - reflexivity.
  - discriminate.
  - discriminate.
Defined.
